(** * Pactum: the mock server's matching engine and the spec orchestrator

    A shallow embedding of [src/models/server.js] (class [Server]) and of the
    orchestrator (class [Spec]: [fetch], the verb builders and [toss]),
    followed by the properties of the interaction registry, of request
    matching and of the register / execute / deregister / validate cycle. *)

From Stdlib Require Import ZArith Bool Lia.
From stdpp Require Import base option list strings gmap.

Open Scope string_scope.
Open Scope list_scope.

Set Warnings "-register-all".

(** ** JavaScript values

    Query objects, header objects, bodies and canned responses are plain
    JavaScript data.  Numbers are restricted to integers. *)

Inductive JsValue : Type :=
| JUndefined
| JNull
| JBool (b : bool)
| JNum (n : Z)
| JStr (s : string)
| JArr (items : list JsValue)
| JObj (fields : list (string * JsValue)).

(** The truthiness test of [if (v)]: [undefined], [null], [false], [0] and the
    empty string are falsy, every array and object is truthy. *)
Definition truthy (v : JsValue) : bool :=
  match v with
  | JUndefined | JNull => false
  | JBool b => b
  | JNum n => negb (n =? 0)%Z
  | JStr s => negb (String.eqb s "")
  | JArr _ | JObj _ => true
  end.

(** Structural comparison of two values, field by field and item by item. *)
Fixpoint js_eqb (a b : JsValue) {struct a} : bool :=
  match a, b with
  | JUndefined, JUndefined => true
  | JNull, JNull => true
  | JBool x, JBool y => Bool.eqb x y
  | JNum x, JNum y => (x =? y)%Z
  | JStr x, JStr y => String.eqb x y
  | JArr xs, JArr ys =>
      (fix items_eqb (xs ys : list JsValue) {struct xs} : bool :=
         match xs, ys with
         | [], [] => true
         | x :: xs', y :: ys' => js_eqb x y && items_eqb xs' ys'
         | _, _ => false
         end) xs ys
  | JObj xs, JObj ys =>
      (fix fields_eqb (xs ys : list (string * JsValue)) {struct xs} : bool :=
         match xs, ys with
         | [], [] => true
         | (k, x) :: xs', (k', y) :: ys' =>
             String.eqb k k' && js_eqb x y && fields_eqb xs' ys'
         | _, _ => false
         end) xs ys
  | _, _ => false
  end.

(** Own enumerable properties of a value: the fields of an object; any other
    value contributes none. *)
Definition own_fields (v : JsValue) : list (string * JsValue) :=
  match v with
  | JObj fields => fields
  | _ => []
  end.

(** Property read [o[k]] on a list of fields. *)
Fixpoint get_field (k : string) (fields : list (string * JsValue)) : option JsValue :=
  match fields with
  | [] => None
  | (k', v) :: rest => if String.eqb k k' then Some v else get_field k rest
  end.

(** The induction principle that reaches the values nested in arrays and
    objects. *)
Section JsValue_nested_ind.
Variable P : JsValue -> Prop.
Hypothesis Hundef : P JUndefined.
Hypothesis Hnull : P JNull.
Hypothesis Hbool : forall b, P (JBool b).
Hypothesis Hnum : forall n, P (JNum n).
Hypothesis Hstr : forall s, P (JStr s).
Hypothesis Harr : forall items, Forall P items -> P (JArr items).
Hypothesis Hobj : forall fields, Forall (fun kv => P kv.2) fields -> P (JObj fields).

Fixpoint JsValue_nested_ind (v : JsValue) : P v :=
  match v with
  | JUndefined => Hundef
  | JNull => Hnull
  | JBool b => Hbool b
  | JNum n => Hnum n
  | JStr s => Hstr s
  | JArr items =>
      Harr items
        ((fix go (l : list JsValue) : Forall P l :=
            match l with
            | [] => @List.Forall_nil _ P
            | x :: l' => @List.Forall_cons _ P x l' (JsValue_nested_ind x) (go l')
            end) items)
  | JObj fields =>
      Hobj fields
        ((fix go (l : list (string * JsValue)) : Forall (fun kv => P kv.2) l :=
            match l with
            | [] => @List.Forall_nil _ _
            | kv :: l' =>
                @List.Forall_cons _ (fun kv => P kv.2) kv l' (JsValue_nested_ind kv.2) (go l')
            end) fields)
  end.
End JsValue_nested_ind.

(** ** The JavaScript [Map]

    A [Map] iterates in insertion order; [set] on a key that is present
    replaces the value and keeps the key's position, [set] on a new key
    appends.  It is kept as an association list. *)
Module JsMap.
Section Ops.
Context {V : Type}.

Definition t := list (string * V).

Definition empty : t := [].

Fixpoint get (k : string) (m : t) : option V :=
  match m with
  | [] => None
  | (k', v) :: rest => if String.eqb k k' then Some v else get k rest
  end.

Definition has (k : string) (m : t) : bool :=
  match get k m with Some _ => true | None => false end.

Fixpoint set (k : string) (v : V) (m : t) : t :=
  match m with
  | [] => [(k, v)]
  | (k', v') :: rest =>
      if String.eqb k k' then (k', v) :: rest else (k', v') :: set k v rest
  end.

Fixpoint delete (k : string) (m : t) : t :=
  match m with
  | [] => []
  | (k', v') :: rest =>
      if String.eqb k k' then delete k rest else (k', v') :: delete k rest
  end.

Definition clear (m : t) : t := [].

Definition keys (m : t) : list string := map fst m.

Definition size (m : t) : nat := length m.
End Ops.
Arguments t : clear implicits.
End JsMap.

(** ** Interactions *)

Module WithRequest.
Record t : Type := mk
  { method : string;
    path : string;
    query : JsValue;
    headers : JsValue;
    body : JsValue }.
End WithRequest.

Module WillRespondWith.
Record t : Type := mk
  { status : JsValue;
    headers : JsValue;
    body : JsValue }.
End WillRespondWith.

Record Interaction : Type := mkInteraction
  { id : string;
    port : N;
    withRequest : WithRequest.t;
    willRespondWith : WillRespondWith.t;
    exercised : bool }.

Definition set_exercised (i : Interaction) : Interaction :=
  {| id := id i;
     port := port i;
     withRequest := withRequest i;
     willRespondWith := willRespondWith i;
     exercised := true |}.

(** Interaction objects are shared between the orchestrator's own map and
    the server's registries: both hold references into one store, and the
    assignment [interaction.exercised = true] is an update of that store. *)
Abbreviation Ref := nat.
Definition Heap := Ref -> Interaction.

Definition heap_set (h : Heap) (r : Ref) (i : Interaction) : Heap :=
  fun r' => if Nat.eqb r' r then i else h r'.

(** ** The inbound request, as the web framework presents it *)
Module Req.
Record t : Type := mk
  { method : string;
    path : string;
    query : JsValue;
    headers : JsValue;
    body : JsValue }.
End Req.

(** The calls made on the framework's response object, in order. *)
Inductive ResCall : Type :=
| ResSet (headers : JsValue)
| ResStatus (code : JsValue)
| ResSend (body : JsValue).

(** ** Request matching helpers

    The three validators live in [helpers/helper.js]; they are modelled from
    the description of the matching engine. *)

(** Modelled from the spec: [helper.validateQuery] is missing.  Every
    declared query key must be present in the request with an equal value;
    the request may carry additional keys, which are not checked. *)
Definition validateQuery (actual expected : JsValue) : bool :=
  forallb
    (fun kv : string * JsValue =>
       match get_field kv.1 (own_fields actual) with
       | Some v => js_eqb kv.2 v
       | None => false
       end)
    (own_fields expected).

(** Modelled from the spec: [helper.validateHeaders] is missing.  Every
    declared header key must be present with an equal value (subset match,
    extra request headers ignored). *)
Definition validateHeaders (actual expected : JsValue) : bool :=
  forallb
    (fun kv : string * JsValue =>
       match get_field kv.1 (own_fields actual) with
       | Some v => js_eqb kv.2 v
       | None => false
       end)
    (own_fields expected).

(** Modelled from the spec: [helper.validateBody] is missing.  Deep
    structural equality between request body and declared body. *)
Definition validateBody (actual expected : JsValue) : bool :=
  js_eqb expected actual.

(** ** The mock server *)

(** The per-port entry of [mockMap]: the [running] flag and the interaction
    registry.  The [app] and [server] handles carry no state of their own
    here. *)
Record Mock : Type := mkMock
  { running : bool;
    interactions : JsMap.t Ref }.

Record Server : Type := mkServer
  { mockMap : gmap N Mock }.

(** [constructor()] *)
Definition new_server : Server := {| mockMap := ∅ |}.

(** The loop body of the request handler: the five checks, their
    conjunction, and what a match does. *)
Definition isValidMethod (req : Req.t) (i : Interaction) : bool :=
  String.eqb (WithRequest.method (withRequest i)) (Req.method req).

Definition isValidPath (req : Req.t) (i : Interaction) : bool :=
  String.eqb (WithRequest.path (withRequest i)) (Req.path req).

Definition isValidQuery (req : Req.t) (i : Interaction) : bool :=
  if truthy (WithRequest.query (withRequest i))
  then validateQuery (Req.query req) (WithRequest.query (withRequest i))
  else true.

Definition isValidHeaders (req : Req.t) (i : Interaction) : bool :=
  if truthy (WithRequest.headers (withRequest i))
  then validateHeaders (Req.headers req) (WithRequest.headers (withRequest i))
  else true.

Definition isValidBody (req : Req.t) (i : Interaction) : bool :=
  if truthy (WithRequest.body (withRequest i))
  then validateBody (Req.body req) (WithRequest.body (withRequest i))
  else true.

Definition matches (req : Req.t) (i : Interaction) : bool :=
  isValidMethod req i && isValidPath req i && isValidQuery req i
  && isValidHeaders req i && isValidBody req i.

Arguments matches : simpl never.

(** The state the handler threads through its loop. *)
Record Handling : Type := mkHandling
  { h_heap : Heap;
    h_res : list ResCall;
    interactionExercised : bool }.

Definition respond_with (w : WillRespondWith.t) : list ResCall :=
  [ ResSet (WillRespondWith.headers w);
    ResStatus (WillRespondWith.status w);
    ResSend (WillRespondWith.body w) ].

Definition handle_entry (req : Req.t) (st : Handling) (entry : string * Ref) : Handling :=
  let interaction := h_heap st entry.2 in
  if matches req interaction then
    {| h_heap := heap_set (h_heap st) entry.2 (set_exercised interaction);
       h_res := h_res st ++ respond_with (willRespondWith interaction);
       interactionExercised := true |}
  else st.

Definition not_found : list ResCall :=
  [ ResStatus (JNum 404); ResSend (JStr "Interaction Not Found") ].

(** The handler installed by [app.all('/*', ...)], run on the registry of
    one port.  The calls on the response object are recorded as the handler
    asks for them, each taken to return normally; that the framework
    refuses a write after the first [send] is not part of this model. *)
Definition handle (req : Req.t) (registry : JsMap.t Ref) (h : Heap) : Handling :=
  let st :=
    fold_left (handle_entry req) registry
      {| h_heap := h; h_res := []; interactionExercised := false |} in
  if interactionExercised st then st
  else {| h_heap := h_heap st;
          h_res := h_res st ++ not_found;
          interactionExercised := false |}.

(** A request arriving on [port].  Only a port with a listening server
    receives requests. *)
Definition dispatch (port : N) (req : Req.t) (s : Server) (h : Heap) : option Handling :=
  match mockMap s !! port with
  | Some mock => if running mock then Some (handle req (interactions mock) h) else None
  | None => None
  end.

(** [start(port)].  [bound] tells whether [app.listen] obtained the port: its
    callback, which installs a fresh entry, runs only then. *)
Definition start (port : N) (bound : bool) (s : Server) : Server :=
  let already_running :=
    match mockMap s !! port with
    | Some mock => running mock
    | None => false
    end in
  if already_running then s
  else if bound
       then {| mockMap := <[port := {| running := true; interactions := JsMap.empty |}]> (mockMap s) |}
       else s.

(** [stop(port)] *)
Definition stop (port : N) (s : Server) : Server :=
  match mockMap s !! port with
  | Some app =>
      if running app
      then {| mockMap := <[port := {| running := false; interactions := interactions app |}]> (mockMap s) |}
      else s
  | None => s
  end.

(** [addInteraction(id, interaction)] *)
Definition addInteraction (id : string) (interaction : Ref) (h : Heap) (s : Server) : Server :=
  let port := port (h interaction) in
  match mockMap s !! port with
  | Some mock =>
      {| mockMap := <[port := {| running := running mock;
                                 interactions := JsMap.set id interaction (interactions mock) |}]>
                      (mockMap s) |}
  | None => s
  end.

(** [removeInteraction(port, id)] *)
Definition removeInteraction (port : N) (id : string) (s : Server) : Server :=
  match mockMap s !! port with
  | Some mock =>
      {| mockMap := <[port := {| running := running mock;
                                 interactions := JsMap.delete id (interactions mock) |}]>
                      (mockMap s) |}
  | None => s
  end.

(** [removeInteractions(port)] *)
Definition removeInteractions (port : N) (s : Server) : Server :=
  match mockMap s !! port with
  | Some mock =>
      {| mockMap := <[port := {| running := running mock;
                                 interactions := JsMap.clear (interactions mock) |}]>
                      (mockMap s) |}
  | None => s
  end.

(** [removeAllInteractions()] *)
Definition removeAllInteractions (s : Server) : Server :=
  {| mockMap :=
       (fun mock => {| running := running mock;
                       interactions := JsMap.clear (interactions mock) |}) <$> mockMap s |}.

(** The server's operations as a command language, to speak of every
    sequence of operations. *)
Inductive Op : Type :=
| OpStart (port : N) (bound : bool)
| OpStop (port : N)
| OpAddInteraction (id : string) (interaction : Ref)
| OpRemoveInteraction (port : N) (id : string)
| OpRemoveInteractions (port : N)
| OpRemoveAllInteractions
| OpRequest (port : N) (req : Req.t).

Definition step (st : Server * Heap) (op : Op) : Server * Heap :=
  let '(s, h) := st in
  match op with
  | OpStart port bound => (start port bound s, h)
  | OpStop port => (stop port s, h)
  | OpAddInteraction id interaction => (addInteraction id interaction h s, h)
  | OpRemoveInteraction port id => (removeInteraction port id s, h)
  | OpRemoveInteractions port => (removeInteractions port s, h)
  | OpRemoveAllInteractions => (removeAllInteractions s, h)
  | OpRequest port req =>
      match dispatch port req s h with
      | Some done => (s, h_heap done)
      | None => (s, h)
      end
  end.

Definition run (ops : list Op) (st : Server * Heap) : Server * Heap :=
  fold_left step ops st.

(** The registry of a port, if the port has an entry. *)
Definition registry_of (port : N) (s : Server) : option (JsMap.t Ref) :=
  interactions <$> mockMap s !! port.

(** Modelled from the spec: the web framework's response object is not part
    of the sources.  Each call writes its argument onto the response, a later
    write replaces an earlier one, and the client observes what was written
    last.  Every call is taken to return normally; whether the framework
    accepts writes after a first [send] lies outside this model. *)
Record Observed : Type := mkObserved
  { o_status : option JsValue;
    o_headers : option JsValue;
    o_body : option JsValue }.

Definition write (o : Observed) (c : ResCall) : Observed :=
  match c with
  | ResSet hs => {| o_status := o_status o; o_headers := Some hs; o_body := o_body o |}
  | ResStatus code => {| o_status := Some code; o_headers := o_headers o; o_body := o_body o |}
  | ResSend b => {| o_status := o_status o; o_headers := o_headers o; o_body := Some b |}
  end.

Definition observe (calls : list ResCall) : Observed :=
  fold_left write calls {| o_status := None; o_headers := None; o_body := None |}.



(** The entries of a registry whose interaction the request satisfies, in
    iteration order, and the test that a given object is among them. *)
Definition matching (req : Req.t) (h : Heap) (registry : JsMap.t Ref) : list (string * Ref) :=
  List.filter (fun e => matches req (h e.2)) registry.

Definition is_matched (req : Req.t) (h : Heap) (registry : JsMap.t Ref) (r : Ref) : bool :=
  existsb (fun e => Nat.eqb e.2 r && matches req (h e.2)) registry.

(** The calls a list of registry entries asks for, one triple per entry. *)
Definition responses (h : Heap) (entries : list (string * Ref)) : list ResCall :=
  flat_map (fun e => respond_with (willRespondWith (h e.2))) entries.

(** Modelled from the spec: [models/interaction.js] is missing.  An
    interaction gets its identifier at creation, is bound to one port, and
    its [exercised] flag is initially false. *)
Definition new_Interaction (fresh_id : string) (p : N)
    (request : WithRequest.t) (response : WillRespondWith.t) : Interaction :=
  {| id := fresh_id;
     port := p;
     withRequest := request;
     willRespondWith := response;
     exercised := false |}.

(** The matching rule in the reading where a constraint counts as declared
    as soon as the interaction carries a value for it. *)
Definition matches_when_declared (req : Req.t) (i : Interaction) : Prop :=
  WithRequest.method (withRequest i) = Req.method req
  /\ WithRequest.path (withRequest i) = Req.path req
  /\ (WithRequest.query (withRequest i) = JUndefined
      \/ validateQuery (Req.query req) (WithRequest.query (withRequest i)) = true)
  /\ (WithRequest.headers (withRequest i) = JUndefined
      \/ validateHeaders (Req.headers req) (WithRequest.headers (withRequest i)) = true)
  /\ (WithRequest.body (withRequest i) = JUndefined
      \/ validateBody (Req.body req) (WithRequest.body (withRequest i)) = true).

(** Sample data: two interactions on port 9393 that answer the same request,
    and one whose declared body is the number zero. *)
Definition get_post_1 : WithRequest.t :=
  WithRequest.mk "GET" "/posts/1" JUndefined JUndefined JUndefined.

Definition first_answer : Interaction :=
  new_Interaction "i-1" 9393 get_post_1
    (WillRespondWith.mk (JNum 200) (JObj [("x-from", JStr "first")]) (JObj [("id", JNum 1)])).

Definition second_answer : Interaction :=
  new_Interaction "i-2" 9393 get_post_1
    (WillRespondWith.mk (JNum 201) (JObj []) (JObj [("id", JNum 2)])).

Definition zero_body : Interaction :=
  new_Interaction "i-3" 9393
    (WithRequest.mk "POST" "/posts" JUndefined JUndefined (JNum 0))
    (WillRespondWith.mk (JNum 201) JUndefined JUndefined).

Definition sample_heap : Heap :=
  fun r => match r with 0 => first_answer | 1 => second_answer | _ => zero_body end.

Definition sample_get : Req.t :=
  Req.mk "GET" "/posts/1" (JObj []) (JObj [("host", JStr "localhost:9393")]) (JObj []).

Definition sample_post : Req.t :=
  Req.mk "POST" "/posts" (JObj []) (JObj [("host", JStr "localhost:9393")])
    (JObj [("title", JStr "foo")]).

Definition sample_server : Server :=
  (run [OpStart 9393 true; OpAddInteraction "i-1" 0; OpAddInteraction "i-2" 1]
     (new_server, sample_heap)).1.

Definition sample_mock : Mock :=
  {| running := true; interactions := [("i-1", 0); ("i-2", 1)] |}.

(** A port that was started, given one interaction and then stopped. *)
Definition stopped_server : Server :=
  (run [OpStart 9393 true; OpAddInteraction "i-1" 0; OpStop 9393]
     (new_server, sample_heap)).1.

(** No registry holds an id twice. *)
Definition ids_unique (s : Server) : Prop :=
  forall p mock, mockMap s !! p = Some mock -> NoDup (JsMap.keys (interactions mock)).

(** Two stores that differ at most in [exercised] flags. *)
Definition agree (h h' : Heap) : Prop :=
  forall r, withRequest (h r) = withRequest (h' r)
            /\ willRespondWith (h r) = willRespondWith (h' r)
            /\ port (h r) = port (h' r).


(** ** The orchestrator *)

(** The options object handed to the HTTP client. *)
Module Request.
Record t : Type := mk
  { url : JsValue;
    method : JsValue;
    qs : JsValue;
    json : JsValue;
    headers : JsValue;
    resolveWithFullResponse : JsValue }.

(** [{}] *)
Definition empty : t :=
  {| url := JUndefined; method := JUndefined; qs := JUndefined;
     json := JUndefined; headers := JUndefined;
     resolveWithFullResponse := JUndefined |}.

Definition set_url (v : JsValue) (r : t) : t :=
  {| url := v; method := method r; qs := qs r; json := json r;
     headers := headers r; resolveWithFullResponse := resolveWithFullResponse r |}.

Definition set_method (v : JsValue) (r : t) : t :=
  {| url := url r; method := v; qs := qs r; json := json r;
     headers := headers r; resolveWithFullResponse := resolveWithFullResponse r |}.

Definition set_resolveWithFullResponse (v : JsValue) (r : t) : t :=
  {| url := url r; method := method r; qs := qs r; json := json r;
     headers := headers r; resolveWithFullResponse := v |}.
End Request.

(** The entry points of the HTTP client that [fetch] uses. *)
Inductive RpCall : Type :=
| RpGet (options : Request.t)
| RpPost (options : Request.t).

(** How the promise of the HTTP client settles.  The client resolves with a
    response object and rejects with an error object. *)
Inductive Settled : Type :=
| Fulfilled (response : list (string * JsValue))
| Rejected (error : list (string * JsValue)).

(** Assignment [o[k] = v] on the fields of an object. *)
Fixpoint set_field (k : string) (v : JsValue) (fields : list (string * JsValue))
  : list (string * JsValue) :=
  match fields with
  | [] => [(k, v)]
  | (k', v') :: rest =>
      if String.eqb k k' then (k', v) :: rest else (k', v') :: set_field k v rest
  end.

(** Property read [o.k], [undefined] when absent. *)
Definition field (k : string) (fields : list (string * JsValue)) : JsValue :=
  match get_field k fields with
  | Some v => v
  | None => JUndefined
  end.

(** What an invocation can end with when it does not return normally. *)
Inductive Thrown : Type :=
| Rejection (error : list (string * JsValue))
| UnexercisedInteraction (id : string)
| AssertionFailed (detail : JsValue).

(** The value bound by [catch (error)]. *)
Definition thrown_value (e : Thrown) : list (string * JsValue) :=
  match e with
  | Rejection error => error
  | UnexercisedInteraction id => [("name", JStr "Error"); ("message", JStr id)]
  | AssertionFailed detail => [("name", JStr "AssertionError"); ("message", detail)]
  end.

(** The calls the orchestrator makes on its collaborators, in order. *)
Inductive Event : Type :=
| EvAddInteraction (id : string) (interaction : Ref)
| EvFetch (call : RpCall)
| EvStoreAddInteraction (interaction : Ref)
| EvRemoveInteraction (port : N) (id : string)
| EvGetJson
| EvValidateInteractions
| EvValidate.

Module Spec.
Section WithCollaborators.
(** The expectation object and its [validate] method belong to
    [models/expect.js], [getJson] to [helpers/helper.js]; both are left open
    as parameters.  [validate] yields the detail of the first failing
    assertion, if any.  [rp] is the HTTP client together with whatever
    reaches the mock server while the call is in flight: it settles the call
    and may change the server and the interaction objects. *)
Variable Expect : Type.
Variable validate : Expect -> list (string * JsValue) -> option JsValue.
Variable getJson : JsValue -> JsValue.
Variable rp : RpCall -> Server * Heap -> Settled * (Server * Heap).

Record t : Type := mk
  { id : string;
    interactions : JsMap.t Ref;
    _request : Request.t;
    _response : list (string * JsValue);
    _expect : Expect }.

Definition set__request (r : Request.t) (this : t) : t :=
  {| id := id this; interactions := interactions this; _request := r;
     _response := _response this; _expect := _expect this |}.

Definition set__response (r : list (string * JsValue)) (this : t) : t :=
  {| id := id this; interactions := interactions this; _request := _request this;
     _response := r; _expect := _expect this |}.

(** The verb builders. *)
Definition verb (name : string) (url : JsValue) (this : t) : t :=
  set__request (Request.set_method (JStr name) (Request.set_url url (_request this))) this.

Definition get := verb "GET".
Definition head := verb "HEAD".
Definition options := verb "OPTIONS".
Definition patch := verb "PATCH".
Definition post := verb "POST".
Definition put := verb "PUT".
Definition delete := verb "DELETE".

(** [fetch()]: the request is marked [resolveWithFullResponse] and handed
    to the client entry point that the [switch] selects. *)
Definition fetch (this : t) : RpCall * t :=
  let request := Request.set_resolveWithFullResponse (JBool true) (_request this) in
  let call :=
    if js_eqb (Request.method request) (JStr "GET") then RpGet request
    else if js_eqb (Request.method request) (JStr "POST") then RpPost request
    else RpGet request in
  (call, set__request request this).

(** The state an invocation runs in: the mock server, the interaction
    objects, the history store, the calls made so far, and the
    orchestrator object itself. *)
Record St : Type := mkSt
  { server : Server;
    heap : Heap;
    store : list Ref;
    trace : list Event;
    this : t }.

Inductive Outcome (A : Type) : Type :=
| Returned (a : A)
| Threw (e : Thrown).
Arguments Returned {A} a.
Arguments Threw {A} e.

Definition M (A : Type) : Type := St -> Outcome A * St.

Definition ret {A : Type} (a : A) : M A := fun st => (Returned a, st).

Definition bind {A B : Type} (m : M A) (k : A -> M B) : M B :=
  fun st =>
    match m st with
    | (Returned a, st') => k a st'
    | (Threw e, st') => (Threw e, st')
    end.

Definition throw {A : Type} (e : Thrown) : M A := fun st => (Threw e, st).

(** [try { m } catch (error) { handler }] *)
Definition try_catch {A : Type} (m : M A) (handler : Thrown -> M A) : M A :=
  fun st =>
    match m st with
    | (Returned a, st') => (Returned a, st')
    | (Threw e, st') => handler e st'
    end.

Notation "'let*' x ':=' c1 'in' c2" := (bind c1 (fun x => c2))
  (at level 10, x name, c1 at level 100, c2 at level 200).

(** [for (let [id, interaction] of entries) { body }] *)
Fixpoint for_of (entries : list (string * Ref)) (body : string -> Ref -> M unit) : M unit :=
  match entries with
  | [] => ret tt
  | (k, r) :: rest => let* _ := body k r in for_of rest body
  end.

Definition emit (e : Event) : M unit :=
  fun st =>
    (Returned tt,
     {| server := server st; heap := heap st; store := store st;
        trace := trace st ++ [e]; this := this st |}).

Definition get_this : M t := fun st => (Returned (this st), st).

Definition put_this (x : t) : M unit :=
  fun st =>
    (Returned tt,
     {| server := server st; heap := heap st; store := store st;
        trace := trace st; this := x |}).

Definition deref (r : Ref) : M Interaction := fun st => (Returned (heap st r), st).

(** [this.server.addInteraction(id, interaction)] *)
Definition server_addInteraction (k : string) (r : Ref) : M unit :=
  let* _ := emit (EvAddInteraction k r) in
  fun st =>
    (Returned tt,
     {| server := addInteraction k r (heap st) (server st); heap := heap st;
        store := store st; trace := trace st; this := this st |}).

(** [this.server.removeInteraction(port, id)] *)
Definition server_removeInteraction (p : N) (k : string) : M unit :=
  let* _ := emit (EvRemoveInteraction p k) in
  fun st =>
    (Returned tt,
     {| server := removeInteraction p k (server st); heap := heap st;
        store := store st; trace := trace st; this := this st |}).

(** Modelled from the spec: [helpers/store.js] is missing.  The history
    collaborator receives each interaction after execution; nothing it
    returns is used. *)
Definition store_addInteraction (r : Ref) : M unit :=
  let* _ := emit (EvStoreAddInteraction r) in
  fun st =>
    (Returned tt,
     {| server := server st; heap := heap st; store := store st ++ [r];
        trace := trace st; this := this st |}).

(** [await this.fetch()] *)
Definition await_fetch : M (list (string * JsValue)) :=
  let* x := get_this in
  let* _ := put_this (fetch x).2 in
  let* _ := emit (EvFetch (fetch x).1) in
  fun st =>
    match rp (fetch x).1 (server st, heap st) with
    | (settled, (s', h')) =>
        let st' := {| server := s'; heap := h'; store := store st;
                      trace := trace st; this := this st |} in
        match settled with
        | Fulfilled response => (Returned response, st')
        | Rejected error => (Threw (Rejection error), st')
        end
    end.

Definition assign_response (r : list (string * JsValue)) : M unit :=
  let* x := get_this in put_this (set__response r x).

(** Modelled from the spec: [Expect.validateInteractions] is missing.
    Every interaction registered by this invocation must have
    [exercised == true], else an unexercised-interaction error naming
    the unmatched interaction is raised. *)
Definition validateInteractions (entries : JsMap.t Ref) : M unit :=
  let* _ := emit EvValidateInteractions in
  for_of entries
    (fun k r =>
       let* interaction := deref r in
       if exercised interaction then ret tt else throw (UnexercisedInteraction k)).

(** [this._expect.validate(this._response)] *)
Definition expect_validate : M unit :=
  let* _ := emit EvValidate in
  let* x := get_this in
  match validate (_expect x) (_response x) with
  | None => ret tt
  | Some detail => throw (AssertionFailed detail)
  end.

(** [toss()] *)
Definition toss : M unit :=
  let* x := get_this in
  let* _ := for_of (interactions x) (fun k r => server_addInteraction k r) in
  let* _ :=
    try_catch
      (let* response := await_fetch in assign_response response)
      (fun error => assign_response (thrown_value error)) in
  let* _ :=
    for_of (interactions x)
      (fun k r =>
         let* _ := store_addInteraction r in
         let* interaction := deref r in
         server_removeInteraction (port interaction) k) in
  let* _ := emit EvGetJson in
  let* y := get_this in
  let* _ := assign_response (set_field "json" (getJson (field "body" (_response y))) (_response y)) in
  let* _ := validateInteractions (interactions x) in
  expect_validate.
End WithCollaborators.

Arguments Returned {A} a.
Arguments Threw {A} e.
Arguments mk {Expect}.
Arguments id {Expect}.
Arguments interactions {Expect}.
Arguments _request {Expect}.
Arguments _response {Expect}.
Arguments _expect {Expect}.
Arguments mkSt {Expect}.
Arguments server {Expect}.
Arguments heap {Expect}.
Arguments store {Expect}.
Arguments trace {Expect}.
Arguments this {Expect}.
End Spec.

(** The registries after the registration loop and after the deregistration
    loop of [toss], and the first entry that validation finds unexercised. *)
Definition registered (entries : JsMap.t Ref) (h : Heap) (s : Server) : Server :=
  fold_left (fun s e => addInteraction e.1 e.2 h s) entries s.

Definition deregistered (entries : JsMap.t Ref) (h : Heap) (s : Server) : Server :=
  fold_left (fun s e => removeInteraction (port (h e.2)) e.1 s) entries s.

Definition first_unexercised (h : Heap) (entries : JsMap.t Ref) : option (string * Ref) :=
  List.find (fun e => negb (exercised (h e.2))) entries.

Definition registrations (entries : JsMap.t Ref) : list Event :=
  map (fun e => EvAddInteraction e.1 e.2) entries.

Definition deregistrations (h : Heap) (entries : JsMap.t Ref) : list Event :=
  flat_map (fun e => [EvStoreAddInteraction e.2; EvRemoveInteraction (port (h e.2)) e.1]) entries.

(** The value [toss] takes for the response, however the call settled. *)
Definition settled_value (x : Settled) : list (string * JsValue) :=
  match x with
  | Fulfilled response => response
  | Rejected error => error
  end.

(** A client whose every rejection is turned into a fulfilment with the same
    value. *)
Definition fulfilling (rp : RpCall -> Server * Heap -> Settled * (Server * Heap))
  : RpCall -> Server * Heap -> Settled * (Server * Heap) :=
  fun call w => (Fulfilled (settled_value (rp call w).1), (rp call w).2).

(** Sample invocations.  The expectation object carries nothing and every
    response passes; the JSON view of a body is the body itself when it is
    an object. *)
Definition no_expectations (_ : unit) (_ : list (string * JsValue)) : option JsValue := None.

Definition object_or_undefined (v : JsValue) : JsValue :=
  match v with
  | JObj _ => v
  | _ => JUndefined
  end.

Definition connection_refused : list (string * JsValue) :=
  [("name", JStr "RequestError"); ("message", JStr "Error: connect ECONNREFUSED")].

(** A client that finds no one listening. *)
Definition refusing (call : RpCall) (w : Server * Heap) : Settled * (Server * Heap) :=
  (Rejected connection_refused, w).

(** A client whose call reaches the mock server on port 9393 as
    [sample_get]. *)
Definition reaching_mock (call : RpCall) (w : Server * Heap) : Settled * (Server * Heap) :=
  match dispatch 9393 sample_get w.1 w.2 with
  | Some done =>
      (Fulfilled [("statusCode", default JUndefined (o_status (observe (h_res done))));
                  ("body", default JUndefined (o_body (observe (h_res done))))],
       (w.1, h_heap done))
  | None => (Rejected connection_refused, w)
  end.

Definition sample_spec : Spec.t unit :=
  Spec.get unit (JStr "http://localhost:9393/posts/1")
    {| Spec.id := "s-1";
       Spec.interactions := [("i-1", 0)];
       Spec._request := Request.empty;
       Spec._response := [];
       Spec._expect := tt |}.

Definition sample_state : Spec.St unit :=
  {| Spec.server := start 9393 true new_server;
     Spec.heap := sample_heap;
     Spec.store := [];
     Spec.trace := [];
     Spec.this := sample_spec |}.

(** ** Further sample data *)

(** An invocation that holds no interaction, against the sample server. *)
Definition bare_state : Spec.St unit :=
  {| Spec.server := sample_server;
     Spec.heap := sample_heap;
     Spec.store := [];
     Spec.trace := [];
     Spec.this :=
       Spec.get unit (JStr "http://localhost:9393/posts/1")
         {| Spec.id := "s-2";
            Spec.interactions := [];
            Spec._request := Request.empty;
            Spec._response := [];
            Spec._expect := tt |} |}.

(** ** The fluent methods of the orchestrator *)

(** The fields of the expectation object that the orchestrator writes.  The
    fields it pushes onto are arrays. *)
Module Expectations.
Record t : Type := mk
  { statusCode : JsValue;
    headers : list JsValue;
    headerContains : list JsValue;
    body : JsValue;
    bodyContains : list JsValue;
    json : list JsValue;
    jsonLike : list JsValue;
    jsonQuery : list JsValue }.
End Expectations.

Module Builder.

Abbreviation spec := (Spec.t Expectations.t).

(** [constructor(server)]: the id comes from the id generator, the
    expectation object from its own constructor. *)
Definition new_Spec (random_id : string) (fresh : Expectations.t) : spec :=
  {| Spec.id := random_id;
     Spec.interactions := JsMap.empty;
     Spec._request := Request.empty;
     Spec._response := [];
     Spec._expect := fresh |}.

Definition set_qs (v : JsValue) (r : Request.t) : Request.t :=
  {| Request.url := Request.url r; Request.method := Request.method r;
     Request.qs := v; Request.json := Request.json r;
     Request.headers := Request.headers r;
     Request.resolveWithFullResponse := Request.resolveWithFullResponse r |}.

Definition set_json (v : JsValue) (r : Request.t) : Request.t :=
  {| Request.url := Request.url r; Request.method := Request.method r;
     Request.qs := Request.qs r; Request.json := v;
     Request.headers := Request.headers r;
     Request.resolveWithFullResponse := Request.resolveWithFullResponse r |}.

Definition set_headers (v : JsValue) (r : Request.t) : Request.t :=
  {| Request.url := Request.url r; Request.method := Request.method r;
     Request.qs := Request.qs r; Request.json := Request.json r;
     Request.headers := v;
     Request.resolveWithFullResponse := Request.resolveWithFullResponse r |}.

Definition set__expect (e : Expectations.t) (this : spec) : spec :=
  {| Spec.id := Spec.id this; Spec.interactions := Spec.interactions this;
     Spec._request := Spec._request this; Spec._response := Spec._response this;
     Spec._expect := e |}.

(** The assignment [o[key] = value] on the own properties of an object.  The
    key [__proto__] is the exception: the assignment then goes to the
    prototype setter and creates no own property.  The prototype itself is
    not part of the model. *)
Definition assign_own (key : string) (value : JsValue) (fields : list (string * JsValue))
  : list (string * JsValue) :=
  if String.eqb key "__proto__" then fields else set_field key value fields.

(** [withQuery(key, value)].  A missing [qs] becomes an empty object first;
    then [qs[key] = value].  [None] stands for the [TypeError] that this
    assignment raises when [qs] is [null] or a primitive.  An array in
    [qs], which none of these methods produces, is not modelled and is
    given [None] as well. *)
Definition withQuery (key : string) (value : JsValue) (this : spec) : option spec :=
  match Request.qs (Spec._request this) with
  | JUndefined =>
      Some (Spec.set__request _ (set_qs (JObj (assign_own key value [])) (Spec._request this)) this)
  | JObj fields =>
      Some (Spec.set__request _ (set_qs (JObj (assign_own key value fields)) (Spec._request this)) this)
  | _ => None
  end.

(** [withJson(json)] *)
Definition withJson (json : JsValue) (this : spec) : spec :=
  Spec.set__request _ (set_json json (Spec._request this)) this.

(** [withHeaders(headers)] *)
Definition withHeaders (headers : JsValue) (this : spec) : spec :=
  Spec.set__request _ (set_headers headers (Spec._request this)) this.

(** [expectStatus(statusCode)] *)
Definition expectStatus (statusCode : JsValue) (this : spec) : spec :=
  let e := Spec._expect this in
  set__expect
    {| Expectations.statusCode := statusCode;
       Expectations.headers := Expectations.headers e;
       Expectations.headerContains := Expectations.headerContains e;
       Expectations.body := Expectations.body e;
       Expectations.bodyContains := Expectations.bodyContains e;
       Expectations.json := Expectations.json e;
       Expectations.jsonLike := Expectations.jsonLike e;
       Expectations.jsonQuery := Expectations.jsonQuery e |} this.

(** [expectHeader(header, value)] *)
Definition expectHeader (header value : JsValue) (this : spec) : spec :=
  let e := Spec._expect this in
  set__expect
    {| Expectations.statusCode := Expectations.statusCode e;
       Expectations.headers :=
         Expectations.headers e ++ [JObj [("key", header); ("value", value)]];
       Expectations.headerContains := Expectations.headerContains e;
       Expectations.body := Expectations.body e;
       Expectations.bodyContains := Expectations.bodyContains e;
       Expectations.json := Expectations.json e;
       Expectations.jsonLike := Expectations.jsonLike e;
       Expectations.jsonQuery := Expectations.jsonQuery e |} this.

(** [expectHeaderContains(header, value)] *)
Definition expectHeaderContains (header value : JsValue) (this : spec) : spec :=
  let e := Spec._expect this in
  set__expect
    {| Expectations.statusCode := Expectations.statusCode e;
       Expectations.headers := Expectations.headers e;
       Expectations.headerContains :=
         Expectations.headerContains e ++ [JObj [("key", header); ("value", value)]];
       Expectations.body := Expectations.body e;
       Expectations.bodyContains := Expectations.bodyContains e;
       Expectations.json := Expectations.json e;
       Expectations.jsonLike := Expectations.jsonLike e;
       Expectations.jsonQuery := Expectations.jsonQuery e |} this.

(** [expectBody(body)] *)
Definition expectBody (body : JsValue) (this : spec) : spec :=
  let e := Spec._expect this in
  set__expect
    {| Expectations.statusCode := Expectations.statusCode e;
       Expectations.headers := Expectations.headers e;
       Expectations.headerContains := Expectations.headerContains e;
       Expectations.body := body;
       Expectations.bodyContains := Expectations.bodyContains e;
       Expectations.json := Expectations.json e;
       Expectations.jsonLike := Expectations.jsonLike e;
       Expectations.jsonQuery := Expectations.jsonQuery e |} this.

(** [expectBodyContains(value)] *)
Definition expectBodyContains (value : JsValue) (this : spec) : spec :=
  let e := Spec._expect this in
  set__expect
    {| Expectations.statusCode := Expectations.statusCode e;
       Expectations.headers := Expectations.headers e;
       Expectations.headerContains := Expectations.headerContains e;
       Expectations.body := Expectations.body e;
       Expectations.bodyContains := Expectations.bodyContains e ++ [value];
       Expectations.json := Expectations.json e;
       Expectations.jsonLike := Expectations.jsonLike e;
       Expectations.jsonQuery := Expectations.jsonQuery e |} this.

(** [expectJson(json)] *)
Definition expectJson (json : JsValue) (this : spec) : spec :=
  let e := Spec._expect this in
  set__expect
    {| Expectations.statusCode := Expectations.statusCode e;
       Expectations.headers := Expectations.headers e;
       Expectations.headerContains := Expectations.headerContains e;
       Expectations.body := Expectations.body e;
       Expectations.bodyContains := Expectations.bodyContains e;
       Expectations.json := Expectations.json e ++ [json];
       Expectations.jsonLike := Expectations.jsonLike e;
       Expectations.jsonQuery := Expectations.jsonQuery e |} this.

(** [expectJsonLike(json)] *)
Definition expectJsonLike (json : JsValue) (this : spec) : spec :=
  let e := Spec._expect this in
  set__expect
    {| Expectations.statusCode := Expectations.statusCode e;
       Expectations.headers := Expectations.headers e;
       Expectations.headerContains := Expectations.headerContains e;
       Expectations.body := Expectations.body e;
       Expectations.bodyContains := Expectations.bodyContains e;
       Expectations.json := Expectations.json e;
       Expectations.jsonLike := Expectations.jsonLike e ++ [json];
       Expectations.jsonQuery := Expectations.jsonQuery e |} this.

(** [expectJsonQuery(path, value)] *)
Definition expectJsonQuery (path value : JsValue) (this : spec) : spec :=
  let e := Spec._expect this in
  set__expect
    {| Expectations.statusCode := Expectations.statusCode e;
       Expectations.headers := Expectations.headers e;
       Expectations.headerContains := Expectations.headerContains e;
       Expectations.body := Expectations.body e;
       Expectations.bodyContains := Expectations.bodyContains e;
       Expectations.json := Expectations.json e;
       Expectations.jsonLike := Expectations.jsonLike e;
       Expectations.jsonQuery :=
         Expectations.jsonQuery e ++ [JObj [("path", path); ("value", value)]] |} this.

(** The seven verb methods. *)
Inductive Verb : Type := GET | HEAD | OPTIONS | PATCH | POST | PUT | DELETE.

Definition verb_name (v : Verb) : string :=
  match v with
  | GET => "GET" | HEAD => "HEAD" | OPTIONS => "OPTIONS" | PATCH => "PATCH"
  | POST => "POST" | PUT => "PUT" | DELETE => "DELETE"
  end.

Definition call_verb (v : Verb) (url : JsValue) (this : spec) : spec :=
  match v with
  | GET => Spec.get _ url this
  | HEAD => Spec.head _ url this
  | OPTIONS => Spec.options _ url this
  | PATCH => Spec.patch _ url this
  | POST => Spec.post _ url this
  | PUT => Spec.put _ url this
  | DELETE => Spec.delete _ url this
  end.

(** A chain of method calls, as written in [spec.get(u).withQuery(k, v)...]. *)
Inductive Call : Type :=
| CallVerb (v : Verb) (url : JsValue)
| CallWithQuery (key : string) (value : JsValue)
| CallWithJson (json : JsValue)
| CallWithHeaders (headers : JsValue)
| CallExpectStatus (statusCode : JsValue)
| CallExpectHeader (header value : JsValue)
| CallExpectHeaderContains (header value : JsValue)
| CallExpectBody (body : JsValue)
| CallExpectBodyContains (value : JsValue)
| CallExpectJson (json : JsValue)
| CallExpectJsonLike (json : JsValue)
| CallExpectJsonQuery (path value : JsValue).

Definition call (c : Call) (this : spec) : option spec :=
  match c with
  | CallVerb v url => Some (call_verb v url this)
  | CallWithQuery key value => withQuery key value this
  | CallWithJson json => Some (withJson json this)
  | CallWithHeaders headers => Some (withHeaders headers this)
  | CallExpectStatus statusCode => Some (expectStatus statusCode this)
  | CallExpectHeader header value => Some (expectHeader header value this)
  | CallExpectHeaderContains header value => Some (expectHeaderContains header value this)
  | CallExpectBody body => Some (expectBody body this)
  | CallExpectBodyContains value => Some (expectBodyContains value this)
  | CallExpectJson json => Some (expectJson json this)
  | CallExpectJsonLike json => Some (expectJsonLike json this)
  | CallExpectJsonQuery path value => Some (expectJsonQuery path value this)
  end.

Fixpoint chain (calls : list Call) (this : spec) : option spec :=
  match calls with
  | [] => Some this
  | c :: rest =>
      match call c this with
      | Some this' => chain rest this'
      | None => None
      end
  end.

Definition is_verb (c : Call) : bool :=
  match c with CallVerb _ _ => true | _ => false end.

Definition is_withJson (c : Call) : bool :=
  match c with CallWithJson _ => true | _ => false end.

Definition is_withHeaders (c : Call) : bool :=
  match c with CallWithHeaders _ => true | _ => false end.


Definition is_expectStatus (c : Call) : bool :=
  match c with CallExpectStatus _ => true | _ => false end.

Definition is_expectBody (c : Call) : bool :=
  match c with CallExpectBody _ => true | _ => false end.

(** What a chain pushes onto each array of the expectation object. *)
Definition pushed (c : Call) : Expectations.t :=
  {| Expectations.statusCode := JUndefined;
     Expectations.headers :=
       match c with
       | CallExpectHeader k v => [JObj [("key", k); ("value", v)]]
       | _ => []
       end;
     Expectations.headerContains :=
       match c with
       | CallExpectHeaderContains k v => [JObj [("key", k); ("value", v)]]
       | _ => []
       end;
     Expectations.body := JUndefined;
     Expectations.bodyContains :=
       match c with CallExpectBodyContains v => [v] | _ => [] end;
     Expectations.json := match c with CallExpectJson j => [j] | _ => [] end;
     Expectations.jsonLike := match c with CallExpectJsonLike j => [j] | _ => [] end;
     Expectations.jsonQuery :=
       match c with
       | CallExpectJsonQuery p v => [JObj [("path", p); ("value", v)]]
       | _ => []
       end |}.

(** The documented chain [post(url).withJson(...).expectStatus(201)], with a
    query parameter set twice. *)
Definition sample_chain : list Call :=
  [ CallVerb GET (JStr "http://localhost:9393/posts");
    CallWithQuery "postId" (JNum 1);
    CallVerb POST (JStr "http://localhost:9393/posts");
    CallWithJson (JObj [("title", JStr "foo")]);
    CallWithQuery "postId" (JNum 2);
    CallExpectStatus (JNum 200);
    CallExpectHeader (JStr "content-type") (JStr "application/json");
    CallExpectStatus (JNum 201) ].

Definition no_expectations_yet : Expectations.t :=
  {| Expectations.statusCode := JUndefined;
     Expectations.headers := [];
     Expectations.headerContains := [];
     Expectations.body := JUndefined;
     Expectations.bodyContains := [];
     Expectations.json := [];
     Expectations.jsonLike := [];
     Expectations.jsonQuery := [] |}.

End Builder.
(** * Properties *)

(** ** Structural comparison decides equality *)

Lemma js_eqb_eq (a b : JsValue) : js_eqb a b = true <-> a = b.
Proof.
  revert b. induction a as [ | | x | x | x | xs IH | xs IH ] using JsValue_nested_ind;
    intros [ | | y | y | y | ys | ys ]; simpl; try (split; [discriminate | congruence]);
    try tauto.
  - destruct x, y; simpl; split; congruence.
  - rewrite Z.eqb_eq. split; congruence.
  - rewrite String.eqb_eq. split; congruence.
  - revert ys. induction IH as [ | x xs Hx _ IHxs ]; intros [ | y ys ];
      try (split; [discriminate | congruence]); [tauto | ].
    rewrite andb_true_iff, Hx.
    specialize (IHxs ys). split.
    + intros [-> H]. apply IHxs in H. congruence.
    + intros E. inversion E; subst. split; [reflexivity | ]. apply IHxs. reflexivity.
  - revert ys. induction IH as [ | [k x] xs Hx _ IHxs ]; intros [ | [k' y] ys ];
      try (split; [discriminate | congruence]); [tauto | ].
    rewrite !andb_true_iff, String.eqb_eq. simpl in Hx. rewrite Hx.
    specialize (IHxs ys). split.
    + intros [[-> ->] H]. apply IHxs in H. congruence.
    + intros E. inversion E; subst. repeat split. apply IHxs. reflexivity.
Qed.

(** ** The [Map] operations *)

Section JsMapFacts.
Context {V : Type}.
Implicit Types (m : JsMap.t V) (k : string) (v : V).

Lemma jsmap_get_set_eq k v m : JsMap.get k (JsMap.set k v m) = Some v.
Proof.
  induction m as [ | [k' v'] m IH ]; simpl.
  - now rewrite String.eqb_refl.
  - destruct (String.eqb_spec k k') as [E | E]; simpl.
    + subst. now rewrite String.eqb_refl.
    + destruct (String.eqb_spec k k'); [contradiction | exact IH].
Qed.

Lemma jsmap_get_set_ne k k' v m :
  k <> k' -> JsMap.get k' (JsMap.set k v m) = JsMap.get k' m.
Proof.
  intros Hne. induction m as [ | [k0 v0] m IH ]; simpl.
  - destruct (String.eqb_spec k' k); [congruence | reflexivity].
  - destruct (String.eqb_spec k k0) as [E | E]; simpl.
    + subst. destruct (String.eqb_spec k' k0); [congruence | reflexivity].
    + now rewrite IH.
Qed.

Lemma jsmap_get_None k m : JsMap.get k m = None <-> k ∉ JsMap.keys m.
Proof.
  induction m as [ | [k' v'] m IH ]; simpl.
  - split; [intros _; apply not_elem_of_nil | reflexivity].
  - rewrite not_elem_of_cons.
    destruct (String.eqb_spec k k'); split; try tauto; try discriminate.
Qed.

Lemma jsmap_get_Some_elem k v m : JsMap.get k m = Some v -> (k, v) ∈ m.
Proof.
  induction m as [ | [k' v'] m IH ]; simpl; [discriminate | ].
  destruct (String.eqb_spec k k') as [-> | _].
  - intros [= ->]. apply elem_of_cons. now left.
  - intros H. apply elem_of_cons. right. apply IH, H.
Qed.

Lemma jsmap_keys_set_present k v m :
  JsMap.has k m = true -> JsMap.keys (JsMap.set k v m) = JsMap.keys m.
Proof.
  unfold JsMap.has. induction m as [ | [k' v'] m IH ]; simpl; [discriminate | ].
  destruct (String.eqb_spec k k'); simpl; [reflexivity | ].
  intros H. now rewrite IH.
Qed.

Lemma jsmap_set_absent k v m :
  JsMap.get k m = None -> JsMap.set k v m = m ++ [(k, v)].
Proof.
  induction m as [ | [k' v'] m IH ]; simpl; [reflexivity | ].
  destruct (String.eqb_spec k k'); [discriminate | ].
  intros H. now rewrite IH.
Qed.

Lemma jsmap_NoDup_set k v m :
  NoDup (JsMap.keys m) -> NoDup (JsMap.keys (JsMap.set k v m)).
Proof.
  intros Hnd. destruct (JsMap.get k m) eqn:E.
  - rewrite jsmap_keys_set_present; [exact Hnd | ]. unfold JsMap.has. now rewrite E.
  - rewrite jsmap_set_absent by exact E. unfold JsMap.keys. rewrite map_app. simpl.
    apply NoDup_app. split; [exact Hnd | ]. split.
    + intros x Hx Hin. apply list_elem_of_singleton in Hin. subst.
      apply jsmap_get_None in E. contradiction.
    + apply NoDup_singleton.
Qed.

Lemma jsmap_keys_delete k k' m :
  k' ∈ JsMap.keys (JsMap.delete k m) <-> k' ∈ JsMap.keys m /\ k' <> k.
Proof.
  induction m as [ | [k0 v0] m IH ]; simpl.
  - split; [intros H; now apply not_elem_of_nil in H | intros [H _]; exact H].
  - destruct (String.eqb_spec k k0) as [-> | Hne]; simpl; rewrite !elem_of_cons.
    + rewrite IH. split; [tauto | ]. intros [[-> | H] Hk]; [contradiction | tauto].
    + rewrite IH. split; [ | tauto].
      intros [-> | [H Hk]]; [split; [tauto | congruence] | tauto].
Qed.

Lemma jsmap_NoDup_delete k m :
  NoDup (JsMap.keys m) -> NoDup (JsMap.keys (JsMap.delete k m)).
Proof.
  induction m as [ | [k0 v0] m IH ]; simpl; [trivial | ].
  rewrite NoDup_cons. intros [Hk0 Hnd].
  destruct (String.eqb_spec k k0); simpl; [now apply IH | ].
  apply NoDup_cons. split; [ | now apply IH].
  rewrite jsmap_keys_delete. tauto.
Qed.

Lemma jsmap_get_delete_eq k m : JsMap.get k (JsMap.delete k m) = None.
Proof. apply jsmap_get_None. rewrite jsmap_keys_delete. tauto. Qed.

Lemma jsmap_get_delete_ne k k' m :
  k <> k' -> JsMap.get k' (JsMap.delete k m) = JsMap.get k' m.
Proof.
  intros Hne. induction m as [ | [k0 v0] m IH ]; simpl; [reflexivity | ].
  destruct (String.eqb_spec k k0) as [-> | H0]; simpl.
  - destruct (String.eqb_spec k' k0); [congruence | exact IH].
  - now rewrite IH.
Qed.

Lemma jsmap_get_delete_None k k' m :
  JsMap.get k' m = None -> JsMap.get k' (JsMap.delete k m) = None.
Proof.
  rewrite !jsmap_get_None, jsmap_keys_delete. tauto.
Qed.
End JsMapFacts.

(** ** The request handler *)

Lemma agree_matches req h h' r : agree h h' -> matches req (h r) = matches req (h' r).
Proof.
  intros Ha. destruct (Ha r) as (Hw & _).
  unfold matches, isValidMethod, isValidPath, isValidQuery, isValidHeaders, isValidBody.
  now rewrite Hw.
Qed.

Lemma agree_heap_set h r : agree (heap_set h r (set_exercised (h r))) h.
Proof.
  intros x. unfold heap_set. destruct (Nat.eqb_spec x r) as [-> | _]; simpl; auto.
Qed.

Lemma agree_matching req h h' registry :
  agree h h' -> matching req h registry = matching req h' registry.
Proof.
  intros Ha. unfold matching. induction registry as [ | e rest IH ]; simpl; [reflexivity | ].
  now rewrite IH, (agree_matches req h h' e.2 Ha).
Qed.

Lemma agree_is_matched req h h' registry r :
  agree h h' -> is_matched req h registry r = is_matched req h' registry r.
Proof.
  intros Ha. unfold is_matched. induction registry as [ | e rest IH ]; simpl; [reflexivity | ].
  now rewrite IH, (agree_matches req h h' e.2 Ha).
Qed.

Lemma agree_responses h h' entries :
  agree h h' -> responses h entries = responses h' entries.
Proof.
  intros Ha. unfold responses. induction entries as [ | e rest IH ]; simpl; [reflexivity | ].
  destruct (Ha e.2) as (_ & Hw & _). now rewrite IH, Hw.
Qed.

Lemma existsb_matching req h registry :
  existsb (fun e => matches req (h e.2)) registry
  = match matching req h registry with [] => false | _ :: _ => true end.
Proof.
  unfold matching. induction registry as [ | e rest IH ]; simpl; [reflexivity | ].
  destruct (matches req (h e.2)); simpl; [reflexivity | exact IH].
Qed.

(** The loop in closed form: which objects are updated, which calls are
    made, and the value of the flag. *)
Lemma handle_loop req registry :
  forall st,
    let st' := fold_left (handle_entry req) registry st in
    (forall r, h_heap st' r =
               if is_matched req (h_heap st) registry r
               then set_exercised (h_heap st r) else h_heap st r)
    /\ h_res st' = h_res st ++ responses (h_heap st) (matching req (h_heap st) registry)
    /\ interactionExercised st' =
       interactionExercised st || existsb (fun e => matches req (h_heap st e.2)) registry.
Proof.
  induction registry as [ | e rest IH ]; intros st; simpl.
  - repeat split; [now rewrite app_nil_r | now rewrite orb_false_r].
  - destruct (IH (handle_entry req st e)) as (Hh & Hr & Hf). clear IH.
    unfold handle_entry in *. unfold matching, is_matched. simpl.
    destruct (matches req (h_heap st e.2)) eqn:M; simpl in *.
    + pose proof (agree_heap_set (h_heap st) e.2) as Ha.
      repeat split.
      * intros r. rewrite Hh, (agree_is_matched _ _ _ _ _ Ha).
        unfold heap_set. rewrite (Nat.eqb_sym e.2 r), andb_true_r.
        destruct (Nat.eqb_spec r e.2) as [-> | _]; simpl.
        -- now destruct (is_matched req (h_heap st) rest e.2).
        -- reflexivity.
      * rewrite Hr, (agree_matching _ _ _ _ Ha), (agree_responses _ _ _ Ha).
        unfold responses at 2. simpl. fold (responses (h_heap st)).
        now rewrite <- !app_assoc.
      * rewrite Hf. simpl. now rewrite orb_true_r.
    + repeat split.
      * intros r. rewrite Hh. now rewrite andb_false_r.
      * exact Hr.
      * exact Hf.
Qed.




Lemma is_matched_true req h registry r :
  is_matched req h registry r = true <->
  exists k, (k, r) ∈ registry /\ matches req (h r) = true.
Proof.
  unfold is_matched. induction registry as [ | [k0 r0] rest IH ]; simpl.
  - split; [discriminate | ]. intros (k & Hin & _). now apply elem_of_nil in Hin.
  - rewrite orb_true_iff, andb_true_iff, Nat.eqb_eq, IH. split.
    + intros [[-> M] | (k & Hin & M)].
      * exists k0. split; [apply elem_of_cons; now left | exact M].
      * exists k. split; [apply elem_of_cons; now right | exact M].
    + intros (k & Hin & M). apply elem_of_cons in Hin as [[= -> ->] | Hin].
      * left. now split.
      * right. now exists k.
Qed.

(** [handle] in closed form. *)
Lemma handle_spec req registry h :
  let done := handle req registry h in
  (forall r, h_heap done r =
             if is_matched req h registry r then set_exercised (h r) else h r)
  /\ h_res done =
     responses h (matching req h registry)
     ++ (if interactionExercised done then [] else not_found)
  /\ interactionExercised done =
     match matching req h registry with [] => false | _ :: _ => true end.
Proof.
  unfold handle.
  destruct (handle_loop req registry
              {| h_heap := h; h_res := []; interactionExercised := false |})
    as (Hh & Hr & Hf).
  simpl in Hh, Hr, Hf. rewrite existsb_matching in Hf.
  destruct (interactionExercised (fold_left _ _ _)) eqn:E; simpl.
  - rewrite E, app_nil_r. repeat split; [exact Hh | exact Hr | now rewrite <- Hf].
  - repeat split; [exact Hh | now rewrite Hr | exact Hf].
Qed.

(** * The matching engine *)



Lemma subset_match_spec (actual declared : list (string * JsValue)) :
  forallb
    (fun kv : string * JsValue =>
       match get_field kv.1 actual with
       | Some v => js_eqb kv.2 v
       | None => false
       end) declared = true
  <-> (forall k v, (k, v) ∈ declared -> get_field k actual = Some v).
Proof.
  rewrite forallb_forall. split.
  - intros H k v Hin. apply list_elem_of_In in Hin. specialize (H _ Hin). simpl in H.
    destruct (get_field k actual) as [v' | ]; [ | discriminate].
    apply js_eqb_eq in H. now subst.
  - intros H [k v] Hin. apply list_elem_of_In in Hin. simpl.
    rewrite (H k v Hin). now apply js_eqb_eq.
Qed.

Lemma matches_unfold req i :
  matches req i = true <->
  WithRequest.method (withRequest i) = Req.method req
  /\ WithRequest.path (withRequest i) = Req.path req
  /\ isValidQuery req i = true
  /\ isValidHeaders req i = true
  /\ isValidBody req i = true.
Proof.
  unfold matches, isValidMethod, isValidPath.
  rewrite !andb_true_iff, !String.eqb_eq. tauto.
Qed.

(** C2 fails as stated.  An interaction that declares the body [0] matches a
    request whose body is an object: the declared body is not [undefined] and
    the body comparison fails, yet the handler tests the declared value for
    truthiness and skips the comparison. *)
Lemma falsy_declared_body_is_not_checked :
  matches sample_post zero_body = true
  /\ WithRequest.body (withRequest zero_body) <> JUndefined
  /\ validateBody (Req.body sample_post) (WithRequest.body (withRequest zero_body)) = false
  /\ ~ matches_when_declared sample_post zero_body.
Proof.
  split; [reflexivity | ]. split; [discriminate | ]. split; [reflexivity | ].
  intros (_ & _ & _ & _ & [H | H]); discriminate.
Qed.

(** C2, amended.  An interaction matches a request exactly when the methods
    are equal as strings (case included), the paths are equal, and each of
    the query, header and body constraints is either not checked, because
    the interaction's value for it is falsy ([undefined], [null], [false],
    [0] or the empty string), or holds.  A query or header constraint given
    as an object holds exactly when every declared key is present in the
    request's object with an equal value; further keys of the request are
    ignored. *)
Theorem matches_iff_all_checked_constraints_hold (req : Req.t) (i : Interaction) :
  (matches req i = true <->
   WithRequest.method (withRequest i) = Req.method req
   /\ WithRequest.path (withRequest i) = Req.path req
   /\ (truthy (WithRequest.query (withRequest i)) = false
       \/ validateQuery (Req.query req) (WithRequest.query (withRequest i)) = true)
   /\ (truthy (WithRequest.headers (withRequest i)) = false
       \/ validateHeaders (Req.headers req) (WithRequest.headers (withRequest i)) = true)
   /\ (truthy (WithRequest.body (withRequest i)) = false
       \/ validateBody (Req.body req) (WithRequest.body (withRequest i)) = true))
  /\ (forall actual declared,
        validateQuery (JObj actual) (JObj declared) = true <->
        forall k v, (k, v) ∈ declared -> get_field k actual = Some v)
  /\ (forall actual declared,
        validateHeaders (JObj actual) (JObj declared) = true <->
        forall k v, (k, v) ∈ declared -> get_field k actual = Some v)
  /\ (forall actual declared extra : list (string * JsValue),
        (forall k v, (k, v) ∈ declared -> get_field k actual = Some v) ->
        forall k v, (k, v) ∈ declared -> get_field k (actual ++ extra) = Some v).
Proof.
  split; [ | split; [ | split]].
  - rewrite matches_unfold. unfold isValidQuery, isValidHeaders, isValidBody.
    destruct (truthy (WithRequest.query (withRequest i)));
      destruct (truthy (WithRequest.headers (withRequest i)));
      destruct (truthy (WithRequest.body (withRequest i)));
      intuition discriminate.
  - intros actual declared. apply subset_match_spec.
  - intros actual declared. apply subset_match_spec.
  - intros actual declared extra H k v Hin. specialize (H k v Hin).
    clear Hin. induction actual as [ | [k0 v0] actual IH ]; simpl in *; [discriminate | ].
    destruct (String.eqb k k0); [exact H | now apply IH].
Qed.

(** * The registry and the port life cycle *)

(** C5 fails as stated.  [start] on a stopped port installs a fresh entry:
    the interaction that the registry still held after [stop] is gone. *)
Lemma start_after_stop_resets_registry :
  registry_of 9393 stopped_server = Some [("i-1", 0)]
  /\ running <$> mockMap stopped_server !! 9393%N = Some false
  /\ registry_of 9393 (start 9393 true stopped_server) = Some [].
Proof. repeat split. Qed.

(** C5, amended.  The per-port state is created by [start].  [stop] on a
    running port only marks it not running and leaves every registry as it
    was.  [start] on a port that is running changes nothing, so the registry
    is kept; [start] on a port that is stopped, once the port is bound,
    installs a fresh entry that is running and whose registry is empty.  No
    other port is affected by [start]. *)
Theorem stop_keeps_registry_start_keeps_it_only_when_running :
  (forall s p, mockMap s !! p = None ->
     mockMap (start p true s) !! p = Some {| running := true; interactions := [] |})
  /\ (forall s p mock, mockMap s !! p = Some mock -> running mock = true ->
        mockMap (stop p s) !! p
        = Some {| running := false; interactions := interactions mock |})
  /\ (forall s p q, registry_of q (stop p s) = registry_of q s)
  /\ (forall s p bound mock, mockMap s !! p = Some mock -> running mock = true ->
        start p bound s = s)
  /\ (forall s p mock, mockMap s !! p = Some mock -> running mock = false ->
        mockMap (start p true s) !! p = Some {| running := true; interactions := [] |})
  /\ (forall s p bound q, q <> p -> mockMap (start p bound s) !! q = mockMap s !! q).
Proof.
  repeat split.
  - intros s p Hp. unfold start. rewrite Hp. simpl. apply lookup_insert_eq.
  - intros s p mock Hp Hrun. unfold stop. rewrite Hp, Hrun. simpl. apply lookup_insert_eq.
  - intros s p q. unfold stop, registry_of.
    destruct (mockMap s !! p) as [mock | ] eqn:Hp; [ | reflexivity].
    destruct (running mock); [ | reflexivity]. simpl.
    destruct (decide (p = q)) as [-> | Hne].
    + now rewrite lookup_insert_eq, Hp.
    + now rewrite lookup_insert_ne.
  - intros s p bound mock Hp Hrun. unfold start. now rewrite Hp, Hrun.
  - intros s p mock Hp Hrun. unfold start. rewrite Hp, Hrun. simpl. apply lookup_insert_eq.
  - intros s p bound q Hne. unfold start.
    destruct (match mockMap s !! p with Some mock => running mock | None => false end);
      [reflexivity | ].
    destruct bound; [ | reflexivity]. simpl. now rewrite lookup_insert_ne.
Qed.

(** C8.  [addInteraction(id, interaction)] stores the interaction under [id]
    in the registry of [interaction.port] when [mockMap] has an entry for
    that port, leaving the [running] flag and every other port as they were;
    when there is no entry the call changes nothing.  Either way it returns
    normally. *)
Theorem addInteraction_inserts_or_drops (id : string) (interaction : Ref) (h : Heap) (s : Server) :
  (forall mock, mockMap s !! port (h interaction) = Some mock ->
     mockMap (addInteraction id interaction h s) !! port (h interaction)
     = Some {| running := running mock;
               interactions := JsMap.set id interaction (interactions mock) |}
     /\ (JsMap.get id <$> registry_of (port (h interaction)) (addInteraction id interaction h s))
        = Some (Some interaction)
     /\ (forall q, q <> port (h interaction) ->
           mockMap (addInteraction id interaction h s) !! q = mockMap s !! q))
  /\ (mockMap s !! port (h interaction) = None -> addInteraction id interaction h s = s).
Proof.
  split.
  - intros mock Hp. unfold addInteraction, registry_of. rewrite Hp. simpl.
    rewrite lookup_insert_eq. simpl. rewrite jsmap_get_set_eq.
    repeat split. intros q Hne. now rewrite lookup_insert_ne.
  - intros Hp. unfold addInteraction. now rewrite Hp.
Qed.

(** C10.  [addInteraction] with an id that the port's registry already holds
    replaces the stored interaction by the new one: the id now reads the new
    interaction, the ids of the registry and their order are unchanged, so
    is its size, and every other id reads what it read before. *)
Theorem addInteraction_same_id_replaces
    (id : string) (interaction previous : Ref) (h : Heap) (s : Server) (mock : Mock) :
  mockMap s !! port (h interaction) = Some mock ->
  JsMap.get id (interactions mock) = Some previous ->
  exists mock',
    mockMap (addInteraction id interaction h s) !! port (h interaction) = Some mock'
    /\ JsMap.get id (interactions mock') = Some interaction
    /\ JsMap.size (interactions mock') = JsMap.size (interactions mock)
    /\ JsMap.keys (interactions mock') = JsMap.keys (interactions mock)
    /\ (forall id', id' <> id ->
          JsMap.get id' (interactions mock') = JsMap.get id' (interactions mock)).
Proof.
  intros Hp Hid. unfold addInteraction. rewrite Hp. simpl.
  eexists. split; [apply lookup_insert_eq | ]. simpl.
  assert (Hkeys : JsMap.keys (JsMap.set id interaction (interactions mock))
                  = JsMap.keys (interactions mock)).
  { apply jsmap_keys_set_present. unfold JsMap.has. now rewrite Hid. }
  split; [apply jsmap_get_set_eq | ]. split; [ | split; [exact Hkeys | ]].
  - unfold JsMap.size. unfold JsMap.keys in Hkeys.
    now rewrite <- (length_map fst), Hkeys, length_map.
  - intros id' Hne. apply jsmap_get_set_ne. congruence.
Qed.

Lemma addInteraction_same_id_replaces_witness :
  mockMap sample_server !! port (sample_heap 1) = Some sample_mock
  /\ JsMap.get "i-1" (interactions sample_mock) = Some 0
  /\ registry_of 9393 (addInteraction "i-1" 1 sample_heap sample_server)
     = Some [("i-1", 1); ("i-2", 1)]
  /\ exists mock',
       mockMap (addInteraction "i-1" 1 sample_heap sample_server) !! port (sample_heap 1)
       = Some mock'
       /\ JsMap.get "i-1" (interactions mock') = Some 1
       /\ JsMap.size (interactions mock') = 2.
Proof.
  split; [reflexivity | ]. split; [reflexivity | ]. split; [reflexivity | ].
  destruct (addInteraction_same_id_replaces "i-1" 1 0 sample_heap sample_server sample_mock
              eq_refl eq_refl) as (mock' & Hm & Hget & Hsize & _).
  exists mock'. split; [exact Hm | ]. split; [exact Hget | exact Hsize].
Defined.

(** X1.  [removeAllInteractions()] leaves every port's registry empty and
    every port in the running state it was in; it creates and removes no
    entry. *)
Theorem removeAllInteractions_clears_every_registry (s : Server) (p : N) :
  mockMap (removeAllInteractions s) !! p
  = (fun mock => {| running := running mock; interactions := [] |}) <$> mockMap s !! p.
Proof. unfold removeAllInteractions. simpl. now rewrite lookup_fmap. Qed.

(** X2.  [stop(p)] on a port without an entry, or on a port that is already
    stopped, changes nothing. *)
Theorem stop_unknown_or_stopped_changes_nothing (s : Server) (p : N) :
  (mockMap s !! p = None -> stop p s = s)
  /\ (forall mock, mockMap s !! p = Some mock -> running mock = false -> stop p s = s).
Proof.
  unfold stop. split.
  - intros Hp. now rewrite Hp.
  - intros mock Hp Hrun. now rewrite Hp, Hrun.
Qed.

(** ** Invariants of the server's operations *)

Lemma ids_unique_insert s p mock :
  ids_unique s -> NoDup (JsMap.keys (interactions mock)) ->
  ids_unique {| mockMap := <[p := mock]> (mockMap s) |}.
Proof.
  intros Hs Hm q mock'. simpl. destruct (decide (p = q)) as [-> | Hne].
  - rewrite lookup_insert_eq. now intros [= <-].
  - rewrite lookup_insert_ne by exact Hne. apply Hs.
Qed.

Lemma step_ids_unique st op : ids_unique st.1 -> ids_unique (step st op).1.
Proof.
  destruct st as [s h]. simpl. intros Hs.
  destruct op as [p bound | p | k r | p k | p | | p req]; simpl.
  - unfold start.
    destruct (match mockMap s !! p with Some mock => running mock | None => false end);
      [exact Hs | ].
    destruct bound; [ | exact Hs]. apply ids_unique_insert; [exact Hs | apply NoDup_nil_2].
  - unfold stop. destruct (mockMap s !! p) as [mock | ] eqn:Hp; [ | exact Hs].
    destruct (running mock); [ | exact Hs].
    apply ids_unique_insert; [exact Hs | ]. simpl. now apply (Hs p).
  - unfold addInteraction. destruct (mockMap s !! port (h r)) as [mock | ] eqn:Hp; [ | exact Hs].
    apply ids_unique_insert; [exact Hs | ]. simpl. apply jsmap_NoDup_set. now apply (Hs (port (h r))).
  - unfold removeInteraction. destruct (mockMap s !! p) as [mock | ] eqn:Hp; [ | exact Hs].
    apply ids_unique_insert; [exact Hs | ]. simpl. apply jsmap_NoDup_delete. now apply (Hs p).
  - unfold removeInteractions. destruct (mockMap s !! p) as [mock | ] eqn:Hp; [ | exact Hs].
    apply ids_unique_insert; [exact Hs | ]. apply NoDup_nil_2.
  - intros q mock. unfold removeAllInteractions. simpl. rewrite lookup_fmap.
    destruct (mockMap s !! q); simpl; [ | discriminate]. intros [= <-]. apply NoDup_nil_2.
  - destruct (dispatch p req s h); exact Hs.
Qed.

Lemma run_snoc ops op st : run (ops ++ [op]) st = step (run ops st) op.
Proof. unfold run. now rewrite fold_left_app. Qed.

Lemma run_ids_unique ops st : ids_unique st.1 -> ids_unique (run ops st).1.
Proof.
  intros Hs. induction ops as [ | op ops IH ] using rev_ind; [exact Hs | ].
  rewrite run_snoc. now apply step_ids_unique.
Qed.

(** One operation changes an object only by setting its flag, and only when
    the operation is a request on a listening port whose registry holds the
    object and whose predicate the request satisfies. *)
Lemma step_heap st op r :
  (step st op).2 r = st.2 r
  \/ (exists p req mock k,
        op = OpRequest p req
        /\ mockMap st.1 !! p = Some mock /\ running mock = true
        /\ (k, r) ∈ interactions mock
        /\ matches req (st.2 r) = true
        /\ (step st op).2 r = set_exercised (st.2 r)).
Proof.
  destruct st as [s h].
  destruct op as [p bound | p | k r0 | p k | p | | p req]; simpl; try (now left).
  unfold dispatch. destruct (mockMap s !! p) as [mock | ] eqn:Hp; [ | now left].
  destruct (running mock) eqn:Hrun; [ | now left]. simpl.
  destruct (handle_spec req (interactions mock) h) as (Hh & _). rewrite Hh.
  destruct (is_matched req h (interactions mock) r) eqn:M; [ | now left].
  apply is_matched_true in M as (k & Hin & M).
  right. exists p, req, mock, k. repeat split; assumption.
Qed.

Lemma step_agree st op : agree (step st op).2 st.2.
Proof.
  intros r. destruct (step_heap st op r) as [-> | (_ & _ & _ & _ & _ & _ & _ & _ & _ & ->)];
    simpl; auto.
Qed.

Lemma run_agree ops st : agree (run ops st).2 st.2.
Proof.
  induction ops as [ | op ops IH ] using rev_ind; [intros r; auto | ].
  rewrite run_snoc. intros r.
  destruct (step_agree (run ops st) op r) as (H1 & H2 & H3).
  destruct (IH r) as (H1' & H2' & H3'). repeat split; congruence.
Qed.

Lemma step_exercised st op r :
  exercised (st.2 r) = true -> exercised ((step st op).2 r) = true.
Proof.
  intros E. destruct (step_heap st op r) as [-> | (_ & _ & _ & _ & _ & _ & _ & _ & _ & ->)];
    [exact E | reflexivity].
Qed.

(** C9.  A new interaction has its flag cleared.  Through every sequence of
    server operations from a fresh server no registry holds an id twice.
    From any state on, a flag that is set stays set, and a flag that was
    clear and is set afterwards was set by a request, dispatched on a
    listening port whose registry held the interaction at that moment, that
    satisfied the interaction's predicate. *)
Theorem registry_ids_unique_exercised_monotonic (ops : list Op) (s : Server) (h : Heap) :
  (forall fresh_id p request response,
     exercised (new_Interaction fresh_id p request response) = false)
  /\ ids_unique (run ops (new_server, h)).1
  /\ (forall r, exercised (h r) = true -> exercised ((run ops (s, h)).2 r) = true)
  /\ (forall r, exercised (h r) = false -> exercised ((run ops (s, h)).2 r) = true ->
        exists before p req after mock k,
          ops = before ++ OpRequest p req :: after
          /\ exercised ((run before (s, h)).2 r) = false
          /\ mockMap (run before (s, h)).1 !! p = Some mock
          /\ running mock = true
          /\ (k, r) ∈ interactions mock
          /\ matches req (h r) = true).
Proof.
  split; [reflexivity | ]. split; [ | split].
  - apply run_ids_unique. intros p mock. simpl. now rewrite lookup_empty.
  - intros r E. induction ops as [ | op ops IH ] using rev_ind; [exact E | ].
    rewrite run_snoc. now apply step_exercised.
  - intros r E. induction ops as [ | op ops IH ] using rev_ind; simpl.
    + intros E'. congruence.
    + rewrite run_snoc. intros E'.
      destruct (exercised ((run ops (s, h)).2 r)) eqn:Eprev.
      * destruct (IH eq_refl) as (before & p & req & after & mock & k & -> & Hrest).
        exists before, p, req, (after ++ [op]), mock, k.
        split; [now rewrite <- app_assoc | exact Hrest].
      * destruct (step_heap (run ops (s, h)) op r)
          as [Hsame | (p & req & mock & k & -> & Hp & Hrun & Hin & M & _)].
        -- rewrite Hsame in E'. congruence.
        -- exists ops, p, req, [], mock, k. repeat split; try assumption.
           pose proof (agree_matches req _ _ r (run_agree ops (s, h))) as Ha.
           simpl in Ha. now rewrite <- Ha.
Qed.

(** * The orchestrator *)

Section OrchestratorFacts.
Variable Expect : Type.
Variable validate : Expect -> list (string * JsValue) -> option JsValue.
Variable getJson : JsValue -> JsValue.

Abbreviation St := (Spec.St Expect).

Lemma for_of_register (entries : JsMap.t Ref) (st : St) :
  Spec.for_of Expect entries (fun k r => Spec.server_addInteraction Expect k r) st
  = (Spec.Returned tt,
     {| Spec.server := registered entries (Spec.heap st) (Spec.server st);
        Spec.heap := Spec.heap st;
        Spec.store := Spec.store st;
        Spec.trace := Spec.trace st ++ registrations entries;
        Spec.this := Spec.this st |}).
Proof.
  revert st. induction entries as [ | [k r] rest IH ]; intros [s h sto tr x]; simpl.
  - unfold Spec.ret. now rewrite app_nil_r.
  - unfold Spec.bind at 1. simpl. rewrite IH. simpl. now rewrite <- app_assoc.
Qed.

Lemma for_of_deregister (entries : JsMap.t Ref) (st : St) :
  Spec.for_of Expect entries
    (fun k r =>
       Spec.bind Expect (Spec.store_addInteraction Expect r)
         (fun _ => Spec.bind Expect (Spec.deref Expect r)
                     (fun interaction =>
                        Spec.server_removeInteraction Expect (port interaction) k))) st
  = (Spec.Returned tt,
     {| Spec.server := deregistered entries (Spec.heap st) (Spec.server st);
        Spec.heap := Spec.heap st;
        Spec.store := Spec.store st ++ map snd entries;
        Spec.trace := Spec.trace st ++ deregistrations (Spec.heap st) entries;
        Spec.this := Spec.this st |}).
Proof.
  revert st. induction entries as [ | [k r] rest IH ]; intros [s h sto tr x]; simpl.
  - unfold Spec.ret. now rewrite !app_nil_r.
  - unfold Spec.bind at 1. simpl. rewrite IH. simpl. now rewrite <- !app_assoc.
Qed.

Lemma validateInteractions_run (entries : JsMap.t Ref) (st : St) :
  Spec.validateInteractions Expect entries st
  = (match first_unexercised (Spec.heap st) entries with
     | Some e => Spec.Threw (UnexercisedInteraction e.1)
     | None => Spec.Returned tt
     end,
     {| Spec.server := Spec.server st;
        Spec.heap := Spec.heap st;
        Spec.store := Spec.store st;
        Spec.trace := Spec.trace st ++ [EvValidateInteractions];
        Spec.this := Spec.this st |}).
Proof.
  unfold Spec.validateInteractions, Spec.bind at 1. simpl.
  generalize (Spec.trace st ++ [EvValidateInteractions]). intros tr.
  unfold first_unexercised.
  unfold Spec.bind, Spec.deref, Spec.ret, Spec.throw.
  induction entries as [ | [k r] rest IH ]; simpl; [reflexivity | ].
  unfold Spec.bind at 1. simpl.
  destruct (exercised (Spec.heap st r)); simpl; [exact IH | reflexivity].
Qed.

(** [toss] with its loops solved: the outcome and the final state in
    terms of how the call settled. *)
Lemma toss_run (rp : RpCall -> Server * Heap -> Settled * (Server * Heap)) (st : St) :
  let x := Spec.this st in
  let entries := Spec.interactions x in
  let call := (Spec.fetch Expect x).1 in
  let settled := rp call (registered entries (Spec.heap st) (Spec.server st), Spec.heap st) in
  let h2 := settled.2.2 in
  let response := settled_value settled.1 in
  let response' := set_field "json" (getJson (field "body" response)) response in
  Spec.toss Expect validate getJson rp st
  = (match first_unexercised h2 entries with
     | Some e => Spec.Threw (UnexercisedInteraction e.1)
     | None =>
         match validate (Spec._expect x) response' with
         | None => Spec.Returned tt
         | Some detail => Spec.Threw (AssertionFailed detail)
         end
     end,
     {| Spec.server := deregistered entries h2 settled.2.1;
        Spec.heap := h2;
        Spec.store := Spec.store st ++ map snd entries;
        Spec.trace :=
          Spec.trace st ++ registrations entries ++ [EvFetch call]
          ++ deregistrations h2 entries ++ [EvGetJson; EvValidateInteractions]
          ++ match first_unexercised h2 entries with
             | Some _ => []
             | None => [EvValidate]
             end;
        Spec.this := Spec.set__response Expect response' (Spec.fetch Expect x).2 |}).
Proof.
  intros x entries call settled h2 response response'.
  unfold Spec.toss. unfold Spec.bind at 1. unfold Spec.get_this at 1.
  fold x. fold entries.
  unfold Spec.bind at 1. rewrite for_of_register.
  unfold Spec.bind at 1. unfold Spec.try_catch, Spec.await_fetch.
  unfold Spec.bind at 1 2 3 4. unfold Spec.get_this at 1. cbn [Spec.this].
  fold x. unfold Spec.put_this at 1. unfold Spec.emit at 1.
  cbn [Spec.this Spec.server Spec.heap Spec.trace Spec.store].
  fold call. fold settled.
  subst response' response h2. clearbody settled call.
  destruct settled as [outcome [s' h']].
  assert (Hassign :
    forall v st',
      Spec.assign_response Expect v st'
      = (Spec.Returned tt,
         {| Spec.server := Spec.server st'; Spec.heap := Spec.heap st';
            Spec.store := Spec.store st'; Spec.trace := Spec.trace st';
            Spec.this := Spec.set__response Expect v (Spec.this st') |}))
    by reflexivity.
  assert (Hexpect : Spec._expect (Spec.fetch Expect x).2 = Spec._expect x) by reflexivity.
  destruct outcome as [value | value]; cbn [settled_value fst snd thrown_value];
    rewrite Hassign; cbn [Spec.this Spec.server Spec.heap Spec.trace Spec.store];
    unfold Spec.bind at 1; rewrite for_of_deregister;
    cbn [Spec.this Spec.server Spec.heap Spec.trace Spec.store];
    unfold Spec.bind at 1, Spec.emit at 1;
    cbn [Spec.this Spec.server Spec.heap Spec.trace Spec.store];
    unfold Spec.bind at 1, Spec.get_this at 1;
    cbn [Spec.this Spec.server Spec.heap Spec.trace Spec.store Spec._response
         Spec.set__response];
    unfold Spec.bind at 1; rewrite Hassign;
    cbn [Spec.this Spec.server Spec.heap Spec.trace Spec.store];
    unfold Spec.bind at 1; rewrite validateInteractions_run;
    cbn [Spec.this Spec.server Spec.heap Spec.trace Spec.store];
    (destruct (first_unexercised h' entries) as [e | ];
     [ f_equal; f_equal; rewrite <- !app_assoc; reflexivity | ]);
    unfold Spec.expect_validate, Spec.bind, Spec.emit, Spec.get_this;
    cbn [Spec.this Spec.server Spec.heap Spec.trace Spec.store Spec._expect
         Spec._response Spec.set__response];
    rewrite Hexpect;
    (destruct (validate (Spec._expect x) _);
     unfold Spec.ret, Spec.throw; f_equal; f_equal; rewrite <- !app_assoc; reflexivity).
Qed.

Lemma removeInteraction_absent p k s mock :
  mockMap (removeInteraction p k s) !! p = Some mock ->
  JsMap.get k (interactions mock) = None.
Proof.
  unfold removeInteraction. destruct (mockMap s !! p) as [m | ] eqn:Hp; simpl.
  - rewrite lookup_insert_eq. intros [= <-]. simpl. apply jsmap_get_delete_eq.
  - now rewrite Hp.
Qed.

Lemma removeInteraction_keeps_absent p k p' k' s :
  (forall mock, mockMap s !! p = Some mock -> JsMap.get k (interactions mock) = None) ->
  forall mock, mockMap (removeInteraction p' k' s) !! p = Some mock ->
               JsMap.get k (interactions mock) = None.
Proof.
  intros Habs mock. unfold removeInteraction.
  destruct (mockMap s !! p') as [m | ] eqn:Hp'; simpl; [ | apply Habs].
  destruct (decide (p' = p)) as [-> | Hne].
  - rewrite lookup_insert_eq. intros [= <-]. simpl.
    apply jsmap_get_delete_None. now apply Habs.
  - rewrite lookup_insert_ne by exact Hne. apply Habs.
Qed.

Lemma deregistered_keeps_absent entries h p k s :
  (forall mock, mockMap s !! p = Some mock -> JsMap.get k (interactions mock) = None) ->
  forall mock, mockMap (deregistered entries h s) !! p = Some mock ->
               JsMap.get k (interactions mock) = None.
Proof.
  unfold deregistered. revert s. induction entries as [ | e rest IH ]; intros s Habs; simpl.
  - exact Habs.
  - apply IH. now apply removeInteraction_keeps_absent.
Qed.

Lemma deregistered_absent (entries : JsMap.t Ref) h s k r mock :
  (k, r) ∈ entries ->
  mockMap (deregistered entries h s) !! port (h r) = Some mock ->
  JsMap.get k (interactions mock) = None.
Proof.
  revert s. induction entries as [ | e rest IH ]; intros s Hin.
  - now apply elem_of_nil in Hin.
  - apply elem_of_cons in Hin as [<- | Hin].
    + apply (deregistered_keeps_absent rest h (port (h r)) k). simpl.
      intros m. apply removeInteraction_absent.
    + apply IH. exact Hin.
Qed.

Lemma first_unexercised_None h (entries : JsMap.t Ref) :
  first_unexercised h entries = None <->
  (forall k r, (k, r) ∈ entries -> exercised (h r) = true).
Proof.
  unfold first_unexercised. induction entries as [ | [k0 r0] rest IH ]; simpl.
  - split; [ | reflexivity]. intros _ k r Hin. now apply elem_of_nil in Hin.
  - destruct (exercised (h r0)) eqn:E; simpl.
    + rewrite IH. split.
      * intros H k r Hin. apply elem_of_cons in Hin as [[= -> ->] | Hin]; [exact E | ].
        now apply (H k).
      * intros H k r Hin. apply (H k). apply elem_of_cons. now right.
    + split; [discriminate | ]. intros H.
      rewrite (H k0 r0) in E; [discriminate | ]. apply elem_of_cons. now left.
Qed.

(** C4.  Whatever the outbound call did and however it settled, [toss]
    then hands every interaction it registered to the history store and
    removes it from the registry of its port, one interaction after the
    other; only after all of them does validation run: first the check
    that every interaction is exercised, which ends the invocation with an
    unexercised-interaction error naming the first that is not, and only
    when that check passes the expectations against the response. *)
Theorem toss_deregisters_then_validates
    (rp : RpCall -> Server * Heap -> Settled * (Server * Heap)) (st : St) :
  let x := Spec.this st in
  let entries := Spec.interactions x in
  let call := (Spec.fetch Expect x).1 in
  let settled := rp call (registered entries (Spec.heap st) (Spec.server st), Spec.heap st) in
  let h2 := settled.2.2 in
  let done := Spec.toss Expect validate getJson rp st in
  Spec.store done.2 = Spec.store st ++ map snd entries
  /\ (forall k r mock,
        (k, r) ∈ entries ->
        mockMap (Spec.server done.2) !! port (h2 r) = Some mock ->
        JsMap.get k (interactions mock) = None)
  /\ Spec.trace done.2
     = Spec.trace st ++ registrations entries ++ [EvFetch call]
       ++ deregistrations h2 entries ++ [EvGetJson; EvValidateInteractions]
       ++ match first_unexercised h2 entries with
          | Some _ => []
          | None => [EvValidate]
          end
  /\ (first_unexercised h2 entries = None <->
      forall k r, (k, r) ∈ entries -> exercised (h2 r) = true)
  /\ (forall e, first_unexercised h2 entries = Some e ->
        exercised (h2 e.2) = false
        /\ done.1 = Spec.Threw (UnexercisedInteraction e.1))
  /\ (first_unexercised h2 entries = None ->
      done.1 = match validate (Spec._expect x) (Spec._response (Spec.this done.2)) with
               | None => Spec.Returned tt
               | Some detail => Spec.Threw (AssertionFailed detail)
               end).
Proof.
  intros x entries call settled h2 done.
  pose proof (toss_run rp st) as Hrun. cbv zeta in Hrun.
  fold x entries call settled h2 in Hrun. fold done in Hrun.
  rewrite Hrun. cbn [fst snd Spec.store Spec.server Spec.trace Spec.this Spec._response
                     Spec.set__response].
  split; [reflexivity | ]. split.
  { intros k r mock Hin. apply deregistered_absent. exact Hin. }
  split; [reflexivity | ]. split; [apply first_unexercised_None | ]. split.
  - intros e He. rewrite He. split; [ | reflexivity].
    unfold first_unexercised in He. apply List.find_some in He as [_ He].
    now apply negb_true_iff in He.
  - intros Hnone. now rewrite Hnone.
Qed.

(** C7.  When the outbound call is rejected, the rejection, which would
    leave the [await] as an exception, is caught and its value becomes the
    observed response: the invocation does not end with the rejection, it
    deregisters its interactions and reaches validation, and it ends as it
    would have had the call been fulfilled with that same value. *)
Theorem toss_substitutes_rejection
    (rp : RpCall -> Server * Heap -> Settled * (Server * Heap))
    (st : St) (error : list (string * JsValue)) (w : Server * Heap) :
  let x := Spec.this st in
  let entries := Spec.interactions x in
  let call := (Spec.fetch Expect x).1 in
  let done := Spec.toss Expect validate getJson rp st in
  rp call (registered entries (Spec.heap st) (Spec.server st), Spec.heap st)
  = (Rejected error, w) ->
  (Spec.await_fetch Expect rp
     {| Spec.server := registered entries (Spec.heap st) (Spec.server st);
        Spec.heap := Spec.heap st;
        Spec.store := Spec.store st;
        Spec.trace := Spec.trace st ++ registrations entries;
        Spec.this := x |}).1 = Spec.Threw (Rejection error)
  /\ Spec._response (Spec.this done.2)
     = set_field "json" (getJson (field "body" error)) error
  /\ (forall e, done.1 <> Spec.Threw (Rejection e))
  /\ Spec.store done.2 = Spec.store st ++ map snd entries
  /\ (forall k r mock,
        (k, r) ∈ entries ->
        mockMap (Spec.server done.2) !! port (w.2 r) = Some mock ->
        JsMap.get k (interactions mock) = None)
  /\ (exists before after,
        Spec.trace done.2 = before ++ EvValidateInteractions :: after)
  /\ done = Spec.toss Expect validate getJson (fulfilling rp) st.
Proof.
  intros x entries call done Hrej.
  pose proof (toss_run rp st) as Hrun. cbv zeta in Hrun.
  fold x entries call in Hrun. fold done in Hrun. rewrite Hrej in Hrun.
  cbn [fst snd settled_value] in Hrun.
  split.
  { unfold Spec.await_fetch, Spec.bind, Spec.get_this, Spec.put_this, Spec.emit.
    cbn [Spec.this Spec.server Spec.heap Spec.trace Spec.store].
    fold call. rewrite Hrej. now destruct w. }
  rewrite Hrun. cbn [fst snd Spec.store Spec.server Spec.trace Spec.this Spec._response
                     Spec.set__response].
  split; [reflexivity | ]. split.
  { intros e. destruct (first_unexercised w.2 entries); [discriminate | ].
    destruct (validate _ _); discriminate. }
  split; [reflexivity | ]. split.
  { intros k r mock Hin. apply deregistered_absent. exact Hin. }
  split.
  { exists (Spec.trace st ++ registrations entries ++ [EvFetch call]
            ++ deregistrations w.2 entries ++ [EvGetJson]).
    eexists. rewrite <- !app_assoc. reflexivity. }
  rewrite (toss_run (fulfilling rp) st). cbv zeta. unfold fulfilling.
  fold x entries call. rewrite Hrej. reflexivity.
Qed.
End OrchestratorFacts.

Lemma toss_substitutes_rejection_witness :
  refusing (Spec.fetch unit sample_spec).1
    (registered [("i-1", 0)] sample_heap (start 9393 true new_server), sample_heap)
  = (Rejected connection_refused,
     (registered [("i-1", 0)] sample_heap (start 9393 true new_server), sample_heap))
  /\ Spec._response
       (Spec.this (Spec.toss unit no_expectations object_or_undefined refusing sample_state).2)
     = connection_refused ++ [("json", JUndefined)]
  /\ (forall e,
        (Spec.toss unit no_expectations object_or_undefined refusing sample_state).1
        <> Spec.Threw (Rejection e)).
Proof.
  split; [reflexivity | ].
  destruct (toss_substitutes_rejection unit no_expectations object_or_undefined refusing
              sample_state connection_refused
              (registered [("i-1", 0)] sample_heap (start 9393 true new_server), sample_heap)
              eq_refl) as (_ & Hresp & Hnot & _).
  split; [exact Hresp | exact Hnot].
Defined.

(** An invocation against the mock server, end to end: the interaction is
    matched, the invocation returns normally, the interaction is handed to
    the store and is gone from the registry, and the same request then finds
    nothing. *)
Example toss_against_the_mock :
  let done := Spec.toss unit no_expectations object_or_undefined reaching_mock sample_state in
  done.1 = Spec.Returned tt
  /\ Spec.store done.2 = [0]
  /\ registry_of 9393 (Spec.server done.2) = Some []
  /\ exercised (Spec.heap done.2 0) = true
  /\ Spec._response (Spec.this done.2)
     = [("statusCode", JNum 200); ("body", JObj [("id", JNum 1)]);
        ("json", JObj [("id", JNum 1)])]
  /\ h_res <$> dispatch 9393 sample_get (Spec.server done.2) (Spec.heap done.2)
     = Some not_found.
Proof. repeat split. Qed.

(** An invocation whose call never reaches the mock server ends with the
    unexercised-interaction error, after the interaction was deregistered. *)
Example toss_unexercised :
  let done := Spec.toss unit no_expectations object_or_undefined refusing sample_state in
  done.1 = Spec.Threw (UnexercisedInteraction "i-1")
  /\ registry_of 9393 (Spec.server done.2) = Some []
  /\ Spec.trace done.2
     = [EvAddInteraction "i-1" 0;
        EvFetch (Spec.fetch unit sample_spec).1;
        EvStoreAddInteraction 0;
        EvRemoveInteraction 9393 "i-1";
        EvGetJson;
        EvValidateInteractions].
Proof. repeat split. Qed.

(** ** Verb dispatch *)

Lemma fetch_call (Expect : Type) (this : Spec.t Expect) :
  (Spec.fetch Expect this).1
  = let request :=
      Request.set_resolveWithFullResponse (JBool true) (Spec._request this) in
    if js_eqb (Request.method (Spec._request this)) (JStr "POST")
    then RpPost request else RpGet request.
Proof.
  unfold Spec.fetch. cbn [fst Request.method Request.set_resolveWithFullResponse].
  destruct (js_eqb (Request.method (Spec._request this)) (JStr "GET")) eqn:Eget;
    [ | reflexivity].
  apply js_eqb_eq in Eget. now rewrite Eget.
Qed.

(** C6, what the code does.  [fetch] has a branch of its own for [GET] and
    for [POST] only.  A request built by [head], [options], [patch], [put]
    or [delete] takes the default branch, the one of an unrecognised method,
    and goes to the client's [get] entry point. *)
Theorem fetch_sends_every_verb_but_post_through_get
    (Expect : Type) (url : JsValue) (this : Spec.t Expect) :
  let sent name :=
    Request.set_resolveWithFullResponse (JBool true)
      (Request.set_method (JStr name) (Request.set_url url (Spec._request this))) in
  (Spec.fetch Expect (Spec.get Expect url this)).1 = RpGet (sent "GET")
  /\ (Spec.fetch Expect (Spec.post Expect url this)).1 = RpPost (sent "POST")
  /\ (Spec.fetch Expect (Spec.head Expect url this)).1 = RpGet (sent "HEAD")
  /\ (Spec.fetch Expect (Spec.options Expect url this)).1 = RpGet (sent "OPTIONS")
  /\ (Spec.fetch Expect (Spec.patch Expect url this)).1 = RpGet (sent "PATCH")
  /\ (Spec.fetch Expect (Spec.put Expect url this)).1 = RpGet (sent "PUT")
  /\ (Spec.fetch Expect (Spec.delete Expect url this)).1 = RpGet (sent "DELETE")
  /\ (forall name, name <> "POST" ->
        (Spec.fetch Expect (Spec.verb Expect name url this)).1 = RpGet (sent name)).
Proof.
  cbv zeta. repeat split.
  intros name Hne. rewrite fetch_call. cbv zeta.
  unfold Spec.verb. cbn [Spec._request Spec.set__request Request.method Request.set_method].
  destruct (js_eqb (JStr name) (JStr "POST")) eqn:E; [ | reflexivity].
  apply js_eqb_eq in E. congruence.
Qed.

(** * Further properties of the server *)

Lemma jsmap_delete_absent {V : Type} (k : string) (m : JsMap.t V) :
  JsMap.get k m = None -> JsMap.delete k m = m.
Proof.
  induction m as [ | [k' v'] m IH ]; simpl; [reflexivity | ].
  destruct (String.eqb_spec k k'); [discriminate | ]. intros H. now rewrite IH.
Qed.

Lemma jsmap_delete_set_absent {V : Type} (k : string) (v : V) (m : JsMap.t V) :
  JsMap.get k m = None -> JsMap.delete k (JsMap.set k v m) = m.
Proof.
  induction m as [ | [k' v'] m IH ]; simpl.
  - now rewrite String.eqb_refl.
  - destruct (String.eqb_spec k k') as [ | Hne]; [discriminate | ]. simpl.
    destruct (String.eqb_spec k k'); [contradiction | ]. intros H. now rewrite IH.
Qed.

Lemma jsmap_keys_delete_filter {V : Type} (k : string) (m : JsMap.t V) :
  JsMap.keys (JsMap.delete k m)
  = List.filter (fun k' => negb (String.eqb k k')) (JsMap.keys m).
Proof.
  induction m as [ | [k' v'] m IH ]; simpl; [reflexivity | ].
  destruct (String.eqb k k'); simpl; now rewrite IH.
Qed.

Lemma server_insert_same (s : Server) (p : N) (mock : Mock) :
  mockMap s !! p = Some mock ->
  {| mockMap := <[p := {| running := running mock; interactions := interactions mock |}]>
                  (mockMap s) |} = s.
Proof.
  intros Hp. destruct s as [m]. destruct mock as [run reg]. simpl in *.
  f_equal. now apply insert_id.
Qed.

(** X3.  [removeInteraction(port, id)] on a port with an entry removes
    exactly that id: the id then reads as absent, every other id reads what
    it read before, the remaining ids keep their order, the [running] flag
    and every other port are untouched.  When the id is not registered, or
    the port has no entry, the server is left exactly as it was. *)
Theorem removeInteraction_removes_only_that_id (p : N) (id : string) (s : Server) :
  (forall mock, mockMap s !! p = Some mock ->
     exists mock',
       mockMap (removeInteraction p id s) !! p = Some mock'
       /\ running mock' = running mock
       /\ JsMap.get id (interactions mock') = None
       /\ (forall id', id' <> id ->
             JsMap.get id' (interactions mock') = JsMap.get id' (interactions mock))
       /\ JsMap.keys (interactions mock')
          = List.filter (fun k => negb (String.eqb id k)) (JsMap.keys (interactions mock)))
  /\ (forall q, q <> p -> mockMap (removeInteraction p id s) !! q = mockMap s !! q)
  /\ (forall mock, mockMap s !! p = Some mock -> JsMap.get id (interactions mock) = None ->
        removeInteraction p id s = s)
  /\ (mockMap s !! p = None -> removeInteraction p id s = s).
Proof.
  unfold removeInteraction. repeat split.
  - intros mock Hp. rewrite Hp. simpl. eexists. split; [apply lookup_insert_eq | ].
    simpl. split; [reflexivity | ]. split; [apply jsmap_get_delete_eq | ].
    split; [ | apply jsmap_keys_delete_filter].
    intros id' Hne. apply jsmap_get_delete_ne. congruence.
  - intros q Hne. destruct (mockMap s !! p); [ | reflexivity]. simpl.
    now rewrite lookup_insert_ne.
  - intros mock Hp Habs. rewrite Hp, (jsmap_delete_absent id _ Habs).
    now apply server_insert_same.
  - intros Hp. now rewrite Hp.
Qed.

Lemma addInteraction_then_removeInteraction_restores_aux
    (id : string) (interaction : Ref) (h : Heap) (s : Server) (mock : Mock) :
  mockMap s !! port (h interaction) = Some mock ->
  JsMap.get id (interactions mock) = None ->
  removeInteraction (port (h interaction)) id (addInteraction id interaction h s) = s.
Proof.
  intros Hp Habs. unfold addInteraction. rewrite Hp.
  unfold removeInteraction. simpl. rewrite lookup_insert_eq. simpl.
  rewrite insert_insert_eq, (jsmap_delete_set_absent id interaction _ Habs).
  now apply server_insert_same.
Qed.

(** X4.  Registering an interaction under an id that its port's registry
    does not hold, and removing that id from the port again, gives back the
    server exactly as it was. *)
Theorem addInteraction_then_removeInteraction_restores
    (id : string) (interaction : Ref) (h : Heap) (s : Server) (mock : Mock) :
  mockMap s !! port (h interaction) = Some mock ->
  JsMap.get id (interactions mock) = None ->
  removeInteraction (port (h interaction)) id (addInteraction id interaction h s) = s.
Proof. apply addInteraction_then_removeInteraction_restores_aux. Qed.

Lemma addInteraction_then_removeInteraction_restores_witness :
  mockMap sample_server !! port (sample_heap 2) = Some sample_mock
  /\ JsMap.get "i-3" (interactions sample_mock) = None
  /\ removeInteraction 9393 "i-3" (addInteraction "i-3" 2 sample_heap sample_server)
     = sample_server.
Proof.
  split; [reflexivity | ]. split; [reflexivity | ].
  exact (addInteraction_then_removeInteraction_restores "i-3" 2 sample_heap sample_server
           sample_mock eq_refl eq_refl).
Defined.

(** X5.  [removeInteractions(port)] empties the registry of that port and of
    no other, keeps the port's [running] flag, and does nothing when the
    port has no entry. *)
Theorem removeInteractions_clears_one_port (p : N) (s : Server) :
  (forall mock, mockMap s !! p = Some mock ->
     mockMap (removeInteractions p s) !! p
     = Some {| running := running mock; interactions := [] |})
  /\ (forall q, q <> p -> mockMap (removeInteractions p s) !! q = mockMap s !! q)
  /\ (mockMap s !! p = None -> removeInteractions p s = s).
Proof.
  unfold removeInteractions. repeat split.
  - intros mock Hp. rewrite Hp. simpl. apply lookup_insert_eq.
  - intros q Hne. destruct (mockMap s !! p); [ | reflexivity]. simpl.
    now rewrite lookup_insert_ne.
  - intros Hp. now rewrite Hp.
Qed.

(** X6.  An interaction registered under an id that the port's registry does
    not hold yet goes to the end of the registry: it is scanned after all
    those already there, and the registry grows by one. *)
Theorem addInteraction_new_id_goes_last
    (id : string) (interaction : Ref) (h : Heap) (s : Server) (mock : Mock) :
  mockMap s !! port (h interaction) = Some mock ->
  JsMap.get id (interactions mock) = None ->
  registry_of (port (h interaction)) (addInteraction id interaction h s)
  = Some (interactions mock ++ [(id, interaction)])
  /\ (JsMap.size <$> registry_of (port (h interaction)) (addInteraction id interaction h s))
     = Some (S (JsMap.size (interactions mock))).
Proof.
  intros Hp Habs. unfold addInteraction, registry_of. rewrite Hp. simpl.
  rewrite lookup_insert_eq. simpl. rewrite (jsmap_set_absent id interaction _ Habs).
  split; [reflexivity | ]. unfold JsMap.size. rewrite length_app. simpl.
  f_equal. lia.
Qed.

Lemma addInteraction_new_id_goes_last_witness :
  mockMap sample_server !! port (sample_heap 2) = Some sample_mock
  /\ JsMap.get "i-3" (interactions sample_mock) = None
  /\ registry_of 9393 (addInteraction "i-3" 2 sample_heap sample_server)
     = Some [("i-1", 0); ("i-2", 1); ("i-3", 2)].
Proof.
  split; [reflexivity | ]. split; [reflexivity | ].
  exact (proj1 (addInteraction_new_id_goes_last "i-3" 2 sample_heap sample_server
                  sample_mock eq_refl eq_refl)).
Defined.

(** X7.  [start] is idempotent: once [start(p)] has bound the port, a second
    [start(p)] changes nothing, since it finds the port running and does not
    listen again; and after a [start] that bound the port, the port is
    running. *)
Theorem start_twice_is_start_once (p : N) (s : Server) :
  (forall bound, start p bound (start p true s) = start p true s)
  /\ (running <$> mockMap (start p true s) !! p) = Some true.
Proof.
  assert (Hrun : (running <$> mockMap (start p true s) !! p) = Some true).
  { unfold start. destruct (mockMap s !! p) as [mock | ] eqn:Hp.
    - destruct (running mock) eqn:Hr; simpl.
      + rewrite Hp. simpl. now rewrite Hr.
      + now rewrite lookup_insert_eq.
    - simpl. now rewrite lookup_insert_eq. }
  split; [ | exact Hrun].
  intros bound. unfold start at 1.
  destruct (mockMap (start p true s) !! p) as [mock | ]; [ | discriminate].
  simpl in Hrun. injection Hrun as ->. reflexivity.
Qed.

(** * Further properties of the request handler *)

Lemma handle_agree (req : Req.t) (registry : JsMap.t Ref) (h : Heap) :
  agree (h_heap (handle req registry h)) h.
Proof.
  intros r. destruct (handle_spec req registry h) as (Hh & _). rewrite Hh.
  destruct (is_matched req h registry r); simpl; auto.
Qed.

(** X8.  The answer to a request does not depend on the [exercised] flags,
    and replaying a request changes nothing further: handled a second time
    on the objects the first handling left, the same request leads to the
    same response calls and leaves every object as the first handling left
    it. *)
Theorem handle_replay_changes_nothing (req : Req.t) (registry : JsMap.t Ref) (h : Heap) :
  let first := handle req registry h in
  let second := handle req registry (h_heap first) in
  (forall h', agree h' h -> h_res (handle req registry h') = h_res first)
  /\ h_res second = h_res first
  /\ interactionExercised second = interactionExercised first
  /\ (forall r, h_heap second r = h_heap first r).
Proof.
  intros first second.
  assert (Hindep : forall h', agree h' h ->
                     h_res (handle req registry h') = h_res first
                     /\ interactionExercised (handle req registry h')
                        = interactionExercised first).
  { intros h' Ha. subst first.
    destruct (handle_spec req registry h) as (_ & Hr & Hf).
    destruct (handle_spec req registry h') as (_ & Hr' & Hf').
    rewrite (agree_matching req h' h registry Ha) in Hr', Hf'.
    rewrite (agree_responses h' h _ Ha) in Hr'.
    assert (interactionExercised (handle req registry h')
            = interactionExercised (handle req registry h)) as E by congruence.
    split; [ | exact E]. now rewrite Hr', Hr, E. }
  pose proof (handle_agree req registry h) as Ha. fold first in Ha.
  split; [intros h' Ha'; now apply Hindep | ].
  split; [now apply Hindep | ]. split; [now apply Hindep | ].
  intros r. subst second.
  destruct (handle_spec req registry (h_heap first)) as (Hh2 & _). rewrite Hh2.
  rewrite (agree_is_matched req (h_heap first) h registry r Ha).
  subst first. destruct (handle_spec req registry h) as (Hh1 & _). rewrite Hh1.
  now destruct (is_matched req h registry r).
Qed.

Lemma is_matched_Permutation req h (registry registry' : JsMap.t Ref) r :
  Permutation registry registry' ->
  is_matched req h registry r = is_matched req h registry' r.
Proof.
  intros Hperm.
  destruct (is_matched req h registry r) eqn:E, (is_matched req h registry' r) eqn:E';
    try reflexivity.
  - apply is_matched_true in E as (k & Hin & M).
    assert (is_matched req h registry' r = true) as E''
      by (apply is_matched_true; exists k; split; [now rewrite <- Hperm | exact M]).
    congruence.
  - apply is_matched_true in E' as (k & Hin & M).
    assert (is_matched req h registry r = true) as E''
      by (apply is_matched_true; exists k; split; [now rewrite Hperm | exact M]).
    congruence.
Qed.

(** X9.  When at most one registered interaction matches a request, the
    position of the entries in the registry is irrelevant: two registries
    with the same entries in a different order lead to the same response
    calls, the same decision between an interaction's answer and not-found,
    and leave every object in the same state. *)
Theorem handle_single_match_regardless_of_order
    (req : Req.t) (registry registry' : JsMap.t Ref) (h : Heap) :
  Permutation registry registry' ->
  (length (matching req h registry) <= 1)%nat ->
  h_res (handle req registry h) = h_res (handle req registry' h)
  /\ interactionExercised (handle req registry h)
     = interactionExercised (handle req registry' h)
  /\ (forall r, h_heap (handle req registry h) r = h_heap (handle req registry' h) r).
Proof.
  intros Hperm Hone.
  destruct (handle_spec req registry h) as (Hh & Hr & Hf).
  destruct (handle_spec req registry' h) as (Hh' & Hr' & Hf').
  assert (Hm : Permutation (matching req h registry) (matching req h registry')).
  { unfold matching. clear -Hperm.
    induction Hperm as [ | e l l' _ IH | e e' l | l l' l'' _ IH _ IH' ]; simpl.
    - constructor.
    - destruct (matches req (h e.2)); [now constructor | exact IH].
    - destruct (matches req (h e.2)), (matches req (h e'.2)); try reflexivity.
      apply perm_swap.
    - now transitivity (List.filter (fun e => matches req (h e.2)) l'). }
  assert (Heq : matching req h registry' = matching req h registry).
  { destruct (matching req h registry) as [ | e [ | e' l ] ].
    - now apply Permutation_nil.
    - now apply Permutation_length_1_inv.
    - simpl in Hone. lia. }
  assert (Hflag : interactionExercised (handle req registry h)
                  = interactionExercised (handle req registry' h))
    by (now rewrite Hf, Hf', Heq).
  split; [ | split; [exact Hflag | ]].
  - now rewrite Hr, Hr', Heq, Hflag.
  - intros r. now rewrite Hh, Hh', (is_matched_Permutation req h _ _ r Hperm).
Qed.

Lemma handle_single_match_regardless_of_order_witness :
  Permutation [("i-1", 0); ("i-3", 2)] [("i-3", 2); ("i-1", 0)]
  /\ (length (matching sample_get sample_heap [("i-1", 0); ("i-3", 2)]) <= 1)%nat
  /\ h_res (handle sample_get [("i-1", 0); ("i-3", 2)] sample_heap)
     = h_res (handle sample_get [("i-3", 2); ("i-1", 0)] sample_heap)
  /\ h_res (handle sample_get [("i-1", 0); ("i-3", 2)] sample_heap)
     = respond_with (willRespondWith first_answer).
Proof.
  split; [apply perm_swap | ]. split; [simpl; lia | ]. split; [ | reflexivity].
  refine (proj1 (handle_single_match_regardless_of_order sample_get
                   [("i-1", 0); ("i-3", 2)] [("i-3", 2); ("i-1", 0)] sample_heap
                   (perm_swap _ _ _) _)).
  simpl. lia.
Defined.

(** X10.  Stopping a running port and starting it again clears its mocks: no
    request is dispatched while the port is stopped, and after the restart
    every request is answered with not-found and marks nothing. *)
Theorem restart_answers_not_found
    (p : N) (req : Req.t) (s : Server) (h : Heap) (mock : Mock) :
  mockMap s !! p = Some mock ->
  running mock = true ->
  dispatch p req (stop p s) h = None
  /\ exists done,
       dispatch p req (start p true (stop p s)) h = Some done
       /\ h_res done = not_found
       /\ h_heap done = h.
Proof.
  intros Hp Hrun.
  assert (Hstop : mockMap (stop p s) !! p
                  = Some {| running := false; interactions := interactions mock |}).
  { unfold stop. rewrite Hp, Hrun. simpl. apply lookup_insert_eq. }
  split.
  - unfold dispatch. now rewrite Hstop.
  - unfold dispatch, start. rewrite Hstop. simpl. rewrite lookup_insert_eq. simpl.
    eexists. split; [reflexivity | ]. split; reflexivity.
Qed.

Lemma restart_answers_not_found_witness :
  mockMap sample_server !! 9393%N = Some sample_mock
  /\ dispatch 9393 sample_get (stop 9393 sample_server) sample_heap = None
  /\ (h_res <$> dispatch 9393 sample_get (start 9393 true (stop 9393 sample_server)) sample_heap)
     = Some not_found.
Proof.
  split; [reflexivity | ].
  destruct (restart_answers_not_found 9393 sample_get sample_server sample_heap sample_mock
              eq_refl eq_refl) as (Hnone & done & Hd & Hres & _).
  split; [exact Hnone | ]. rewrite Hd. simpl. now rewrite Hres.
Defined.

(** * Further properties of the orchestrator *)

Lemma addInteraction_frame id r h s p k :
  k <> id ->
  (JsMap.get k <$> registry_of p (addInteraction id r h s))
  = (JsMap.get k <$> registry_of p s).
Proof.
  intros Hne. unfold addInteraction, registry_of.
  destruct (mockMap s !! port (h r)) as [mock | ] eqn:Hp; [ | reflexivity]. simpl.
  destruct (decide (port (h r) = p)) as [<- | Hq].
  - rewrite lookup_insert_eq, Hp. simpl. f_equal. apply jsmap_get_set_ne. congruence.
  - now rewrite lookup_insert_ne.
Qed.

Lemma addInteraction_running id r h s p :
  (running <$> mockMap (addInteraction id r h s) !! p) = (running <$> mockMap s !! p).
Proof.
  unfold addInteraction.
  destruct (mockMap s !! port (h r)) as [mock | ] eqn:Hp; [ | reflexivity]. simpl.
  destruct (decide (port (h r) = p)) as [<- | Hq].
  - now rewrite lookup_insert_eq, Hp.
  - now rewrite lookup_insert_ne.
Qed.

Lemma removeInteraction_frame q id s p k :
  k <> id ->
  (JsMap.get k <$> registry_of p (removeInteraction q id s))
  = (JsMap.get k <$> registry_of p s).
Proof.
  intros Hne. unfold removeInteraction, registry_of.
  destruct (mockMap s !! q) as [mock | ] eqn:Hp; [ | reflexivity]. simpl.
  destruct (decide (q = p)) as [<- | Hq].
  - rewrite lookup_insert_eq, Hp. simpl. f_equal. apply jsmap_get_delete_ne. congruence.
  - now rewrite lookup_insert_ne.
Qed.

Lemma removeInteraction_running q id s p :
  (running <$> mockMap (removeInteraction q id s) !! p) = (running <$> mockMap s !! p).
Proof.
  unfold removeInteraction.
  destruct (mockMap s !! q) as [mock | ] eqn:Hp; [ | reflexivity]. simpl.
  destruct (decide (q = p)) as [<- | Hq].
  - now rewrite lookup_insert_eq, Hp.
  - now rewrite lookup_insert_ne.
Qed.

Lemma registered_frame (entries : JsMap.t Ref) h s p k :
  k ∉ JsMap.keys entries ->
  (JsMap.get k <$> registry_of p (registered entries h s))
  = (JsMap.get k <$> registry_of p s).
Proof.
  unfold registered. revert s. induction entries as [ | [k0 r0] rest IH ]; intros s Hk; simpl.
  - reflexivity.
  - simpl in Hk. apply not_elem_of_cons in Hk as [Hne Hk].
    rewrite IH by exact Hk. now apply addInteraction_frame.
Qed.

Lemma registered_running (entries : JsMap.t Ref) h s p :
  (running <$> mockMap (registered entries h s) !! p) = (running <$> mockMap s !! p).
Proof.
  unfold registered. revert s. induction entries as [ | [k0 r0] rest IH ]; intros s; simpl.
  - reflexivity.
  - rewrite IH. apply addInteraction_running.
Qed.

Lemma deregistered_frame (entries : JsMap.t Ref) h s p k :
  k ∉ JsMap.keys entries ->
  (JsMap.get k <$> registry_of p (deregistered entries h s))
  = (JsMap.get k <$> registry_of p s).
Proof.
  unfold deregistered. revert s. induction entries as [ | [k0 r0] rest IH ]; intros s Hk; simpl.
  - reflexivity.
  - simpl in Hk. apply not_elem_of_cons in Hk as [Hne Hk].
    rewrite IH by exact Hk. now apply removeInteraction_frame.
Qed.

Lemma deregistered_running (entries : JsMap.t Ref) h s p :
  (running <$> mockMap (deregistered entries h s) !! p) = (running <$> mockMap s !! p).
Proof.
  unfold deregistered. revert s. induction entries as [ | [k0 r0] rest IH ]; intros s; simpl.
  - reflexivity.
  - rewrite IH. apply removeInteraction_running.
Qed.

(** X11.  [toss] touches the server only at the ids of its own
    interactions.  For every port and every other id, the server the
    outbound call sees reads as the server did before the invocation, and
    the server after the invocation reads as the call left it; no port is
    started, stopped or created by the invocation itself. *)
Theorem toss_touches_only_its_own_ids
    (Expect : Type) (validate : Expect -> list (string * JsValue) -> option JsValue)
    (getJson : JsValue -> JsValue)
    (rp : RpCall -> Server * Heap -> Settled * (Server * Heap))
    (st : Spec.St Expect) (p : N) :
  let x := Spec.this st in
  let entries := Spec.interactions x in
  let seen := registered entries (Spec.heap st) (Spec.server st) in
  let settled := rp (Spec.fetch Expect x).1 (seen, Spec.heap st) in
  let done := Spec.toss Expect validate getJson rp st in
  (forall k, k ∉ JsMap.keys entries ->
     (JsMap.get k <$> registry_of p seen)
     = (JsMap.get k <$> registry_of p (Spec.server st)))
  /\ (running <$> mockMap seen !! p) = (running <$> mockMap (Spec.server st) !! p)
  /\ (forall k, k ∉ JsMap.keys entries ->
        (JsMap.get k <$> registry_of p (Spec.server done.2))
        = (JsMap.get k <$> registry_of p settled.2.1))
  /\ (running <$> mockMap (Spec.server done.2) !! p)
     = (running <$> mockMap settled.2.1 !! p).
Proof.
  intros x entries seen settled done.
  pose proof (toss_run Expect validate getJson rp st) as Hrun. cbv zeta in Hrun.
  fold x entries seen in Hrun. fold settled in Hrun. fold done in Hrun.
  rewrite Hrun. cbn [snd Spec.server].
  split; [intros k Hk; now apply registered_frame | ].
  split; [apply registered_running | ].
  split; [intros k Hk; now apply deregistered_frame | apply deregistered_running].
Qed.

(** X12.  An invocation without interactions never ends with an
    unexercised-interaction error: its outcome is that of the expectations
    on the response, the server is left as the outbound call left it, and
    nothing is handed to the history store. *)
Theorem toss_without_interactions
    (Expect : Type) (validate : Expect -> list (string * JsValue) -> option JsValue)
    (getJson : JsValue -> JsValue)
    (rp : RpCall -> Server * Heap -> Settled * (Server * Heap))
    (st : Spec.St Expect) :
  let x := Spec.this st in
  let call := (Spec.fetch Expect x).1 in
  let settled := rp call (Spec.server st, Spec.heap st) in
  let done := Spec.toss Expect validate getJson rp st in
  Spec.interactions x = [] ->
  done.1 = match validate (Spec._expect x) (Spec._response (Spec.this done.2)) with
           | None => Spec.Returned tt
           | Some detail => Spec.Threw (AssertionFailed detail)
           end
  /\ Spec.server done.2 = settled.2.1
  /\ Spec.store done.2 = Spec.store st
  /\ Spec.trace done.2
     = Spec.trace st ++ [EvFetch call; EvGetJson; EvValidateInteractions; EvValidate].
Proof.
  intros x call settled done Hnone.
  pose proof (toss_run Expect validate getJson rp st) as Hrun. cbv zeta in Hrun.
  fold x in Hrun. rewrite Hnone in Hrun. cbn [registered fold_left] in Hrun.
  fold call settled in Hrun. fold done in Hrun.
  rewrite Hrun. cbn. rewrite app_nil_r. repeat split.
Qed.

Lemma toss_without_interactions_witness :
  Spec.interactions (Spec.this bare_state) = []
  /\ (Spec.toss unit no_expectations object_or_undefined reaching_mock bare_state).1
     = Spec.Returned tt.
Proof.
  split; [reflexivity | ].
  exact (proj1 (toss_without_interactions unit no_expectations object_or_undefined
                  reaching_mock bare_state eq_refl)).
Defined.

(** * The fluent methods *)

Lemma chain_app (a b : list Builder.Call) (x : Spec.t Expectations.t) :
  Builder.chain (a ++ b) x
  = match Builder.chain a x with
    | Some y => Builder.chain b y
    | None => None
    end.
Proof.
  revert x. induction a as [ | c a IH ]; intros x; simpl; [reflexivity | ].
  destruct (Builder.call c x); [apply IH | reflexivity].
Qed.

Lemma chain_split (before after : list Builder.Call) (c : Builder.Call)
    (x x' : Spec.t Expectations.t) :
  Builder.chain (before ++ c :: after) x = Some x' ->
  exists y y',
    Builder.chain before x = Some y
    /\ Builder.call c y = Some y'
    /\ Builder.chain after y' = Some x'.
Proof.
  rewrite chain_app. destruct (Builder.chain before x) as [y | ]; [ | discriminate].
  simpl. destruct (Builder.call c y) as [y' | ] eqn:E; [ | discriminate].
  intros H. now exists y, y'.
Qed.

(** A property that every call other than those of one kind preserves
    survives a chain without calls of that kind. *)
Lemma chain_preserves (P : Spec.t Expectations.t -> Prop) (kind : Builder.Call -> bool) :
  (forall c y y', Builder.call c y = Some y' -> kind c = false -> P y -> P y') ->
  forall calls y y',
    Builder.chain calls y = Some y' ->
    forallb (fun c => negb (kind c)) calls = true ->
    P y -> P y'.
Proof.
  intros Hstep calls. induction calls as [ | c calls IH ]; intros y y'; simpl.
  - now intros [= <-].
  - destruct (Builder.call c y) as [y1 | ] eqn:E; [ | discriminate].
    intros Hchain Hkind HP. apply andb_true_iff in Hkind as [Hc Hrest].
    apply (IH y1 y' Hchain Hrest). apply (Hstep c y y1 E); [ | exact HP].
    now apply negb_true_iff.
Qed.

Ltac call_cases c H :=
  destruct c as [[ | | | | | | ] ? | ? ? | ? | ? | ? | ? ? | ? ? | ? | ? | ? | ? | ? ? ];
  simpl in H; unfold Builder.withQuery in H;
  try match type of H with
      | context [match Request.qs ?r with _ => _ end] =>
          destruct (Request.qs r) eqn:?; try discriminate
      end;
  injection H as <-.

Lemma call_keeps_qs_shape c (y y' : Spec.t Expectations.t) :
  Builder.call c y = Some y' ->
  (Request.qs (Spec._request y) = JUndefined
   \/ exists fields, Request.qs (Spec._request y) = JObj fields) ->
  Request.qs (Spec._request y') = JUndefined
  \/ exists fields, Request.qs (Spec._request y') = JObj fields.
Proof.
  intros H Hq. call_cases c H; simpl; try exact Hq; right; eexists; reflexivity.
Qed.

Lemma call_defined c (y : Spec.t Expectations.t) :
  (Request.qs (Spec._request y) = JUndefined
   \/ exists fields, Request.qs (Spec._request y) = JObj fields) ->
  exists y', Builder.call c y = Some y'.
Proof.
  intros Hq. destruct c; simpl; try (eexists; reflexivity).
  unfold Builder.withQuery. destruct Hq as [-> | [fields ->]]; eexists; reflexivity.
Qed.

Lemma call_keeps_rest c (y y' : Spec.t Expectations.t) :
  Builder.call c y = Some y' ->
  Spec.id y' = Spec.id y
  /\ Spec.interactions y' = Spec.interactions y
  /\ Spec._response y' = Spec._response y
  /\ Request.resolveWithFullResponse (Spec._request y')
     = Request.resolveWithFullResponse (Spec._request y).
Proof. intros H. call_cases c H; simpl; auto. Qed.

(** X13.  A chain of fluent method calls on a freshly constructed
    orchestrator never fails, in whatever order the methods are called: the
    query object is always either missing or an object, so [withQuery] can
    always assign; and no method of the chain touches the orchestrator's id,
    its interactions or its response. *)
Theorem chain_on_new_Spec_never_fails
    (random_id : string) (fresh : Expectations.t) (calls : list Builder.Call) :
  exists x,
    Builder.chain calls (Builder.new_Spec random_id fresh) = Some x
    /\ (Request.qs (Spec._request x) = JUndefined
        \/ exists fields, Request.qs (Spec._request x) = JObj fields)
    /\ Spec.id x = random_id
    /\ Spec.interactions x = []
    /\ Spec._response x = [].
Proof.
  assert (Hgen : forall calls y,
            (Request.qs (Spec._request y) = JUndefined
             \/ exists fields, Request.qs (Spec._request y) = JObj fields) ->
            exists x,
              Builder.chain calls y = Some x
              /\ (Request.qs (Spec._request x) = JUndefined
                  \/ exists fields, Request.qs (Spec._request x) = JObj fields)
              /\ Spec.id x = Spec.id y
              /\ Spec.interactions x = Spec.interactions y
              /\ Spec._response x = Spec._response y).
  { clear calls. intros calls. induction calls as [ | c calls IH ]; intros y Hq; simpl.
    - exists y. auto.
    - destruct (call_defined c y Hq) as [y1 E]. rewrite E.
      destruct (IH y1 (call_keeps_qs_shape c y y1 E Hq)) as (x & Hx & Hqx & Hid & Hi & Hr).
      destruct (call_keeps_rest c y y1 E) as (Hid1 & Hi1 & Hr1 & _).
      exists x. repeat split; try assumption; congruence. }
  apply (Hgen calls (Builder.new_Spec random_id fresh)). now left.
Qed.

(** X14.  In a chain of fluent calls the last verb method decides the method
    and the url of the request, and with them the entry point [fetch] hands
    the request to: the client's [post] for [post], its [get] for every
    other verb.  [withJson] and [withHeaders] replace what an earlier call
    of the same method set, and a chain without a verb method leaves method
    and url as they were. *)
Theorem chain_last_call_of_a_kind_wins
    (calls : list Builder.Call) (x x' : Spec.t Expectations.t) :
  Builder.chain calls x = Some x' ->
  (forall before v url after,
     calls = before ++ Builder.CallVerb v url :: after ->
     forallb (fun c => negb (Builder.is_verb c)) after = true ->
     Request.method (Spec._request x') = JStr (Builder.verb_name v)
     /\ Request.url (Spec._request x') = url
     /\ (Spec.fetch _ x').1
        = (match v with Builder.POST => RpPost | _ => RpGet end)
            (Request.set_resolveWithFullResponse (JBool true) (Spec._request x')))
  /\ (forall before json after,
        calls = before ++ Builder.CallWithJson json :: after ->
        forallb (fun c => negb (Builder.is_withJson c)) after = true ->
        Request.json (Spec._request x') = json)
  /\ (forall before headers after,
        calls = before ++ Builder.CallWithHeaders headers :: after ->
        forallb (fun c => negb (Builder.is_withHeaders c)) after = true ->
        Request.headers (Spec._request x') = headers)
  /\ (forallb (fun c => negb (Builder.is_verb c)) calls = true ->
      Request.method (Spec._request x') = Request.method (Spec._request x)
      /\ Request.url (Spec._request x') = Request.url (Spec._request x)).
Proof.
  intros Hchain.
  assert (Hverb : forall m u c y y',
            Builder.call c y = Some y' -> Builder.is_verb c = false ->
            Request.method (Spec._request y) = m /\ Request.url (Spec._request y) = u ->
            Request.method (Spec._request y') = m /\ Request.url (Spec._request y') = u).
  { intros m u c y y' H Hk HP. call_cases c H; simpl in *; try discriminate; exact HP. }
  split; [ | split; [ | split]].
  - intros before v url after -> Hafter.
    destruct (chain_split _ _ _ _ _ Hchain) as (y & y' & _ & Hc & Hrest).
    simpl in Hc. injection Hc as <-.
    assert (Request.method (Spec._request x') = JStr (Builder.verb_name v)
            /\ Request.url (Spec._request x') = url) as [Hm Hu].
    { apply (chain_preserves _ Builder.is_verb (Hverb _ _) after _ x' Hrest Hafter).
      now destruct v. }
    split; [exact Hm | ]. split; [exact Hu | ].
    rewrite fetch_call. cbv zeta. rewrite Hm. now destruct v.
  - intros before json after -> Hafter.
    destruct (chain_split _ _ _ _ _ Hchain) as (y & y' & _ & Hc & Hrest).
    simpl in Hc. injection Hc as <-.
    apply (chain_preserves (fun z => Request.json (Spec._request z) = json)
             Builder.is_withJson) with (calls := after) (y := Builder.withJson json y);
      try assumption; [ | reflexivity].
    intros c z z' H Hk HP. call_cases c H; simpl in *; try discriminate; exact HP.
  - intros before headers after -> Hafter.
    destruct (chain_split _ _ _ _ _ Hchain) as (y & y' & _ & Hc & Hrest).
    simpl in Hc. injection Hc as <-.
    apply (chain_preserves (fun z => Request.headers (Spec._request z) = headers)
             Builder.is_withHeaders) with (calls := after) (y := Builder.withHeaders headers y);
      try assumption; [ | reflexivity].
    intros c z z' H Hk HP. call_cases c H; simpl in *; try discriminate; exact HP.
  - intros Hnone.
    apply (chain_preserves _ Builder.is_verb (Hverb _ _) calls x x' Hchain Hnone).
    now split.
Qed.

Lemma chain_last_call_of_a_kind_wins_witness :
  exists x',
    Builder.chain Builder.sample_chain (Builder.new_Spec "s-3" Builder.no_expectations_yet)
    = Some x'
    /\ Request.method (Spec._request x') = JStr "POST"
    /\ Request.url (Spec._request x') = JStr "http://localhost:9393/posts"
    /\ (Spec.fetch _ x').1
       = RpPost (Request.set_resolveWithFullResponse (JBool true) (Spec._request x')).
Proof.
  eexists. split; [reflexivity | ].
  refine (proj1 (chain_last_call_of_a_kind_wins Builder.sample_chain
                   (Builder.new_Spec "s-3" Builder.no_expectations_yet) _ eq_refl)
            [Builder.CallVerb Builder.GET (JStr "http://localhost:9393/posts");
             Builder.CallWithQuery "postId" (JNum 1)]
            Builder.POST (JStr "http://localhost:9393/posts") _ eq_refl eq_refl).
Defined.



Lemma call_pushes c (y y' : Spec.t Expectations.t) :
  Builder.call c y = Some y' ->
  Expectations.headers (Spec._expect y')
  = Expectations.headers (Spec._expect y) ++ Expectations.headers (Builder.pushed c)
  /\ Expectations.headerContains (Spec._expect y')
     = Expectations.headerContains (Spec._expect y)
       ++ Expectations.headerContains (Builder.pushed c)
  /\ Expectations.bodyContains (Spec._expect y')
     = Expectations.bodyContains (Spec._expect y)
       ++ Expectations.bodyContains (Builder.pushed c)
  /\ Expectations.json (Spec._expect y')
     = Expectations.json (Spec._expect y) ++ Expectations.json (Builder.pushed c)
  /\ Expectations.jsonLike (Spec._expect y')
     = Expectations.jsonLike (Spec._expect y) ++ Expectations.jsonLike (Builder.pushed c)
  /\ Expectations.jsonQuery (Spec._expect y')
     = Expectations.jsonQuery (Spec._expect y) ++ Expectations.jsonQuery (Builder.pushed c).
Proof.
  intros H. call_cases c H; simpl; rewrite ?app_nil_r; repeat split.
Qed.

(** X16.  Expectations of the array kinds accumulate and the two scalar ones
    do not: after a chain of fluent calls each array of the expectation
    object is what it was, followed by what the chain's calls of that kind
    pushed, in call order, whatever other calls came in between; but only
    the last [expectStatus] and the last [expectBody] of the chain are
    kept. *)
Theorem chain_expectations_accumulate_scalars_overwrite
    (calls : list Builder.Call) (x x' : Spec.t Expectations.t) :
  Builder.chain calls x = Some x' ->
  (Expectations.headers (Spec._expect x')
   = Expectations.headers (Spec._expect x)
     ++ flat_map (fun c => Expectations.headers (Builder.pushed c)) calls
   /\ Expectations.headerContains (Spec._expect x')
      = Expectations.headerContains (Spec._expect x)
        ++ flat_map (fun c => Expectations.headerContains (Builder.pushed c)) calls
   /\ Expectations.bodyContains (Spec._expect x')
      = Expectations.bodyContains (Spec._expect x)
        ++ flat_map (fun c => Expectations.bodyContains (Builder.pushed c)) calls
   /\ Expectations.json (Spec._expect x')
      = Expectations.json (Spec._expect x)
        ++ flat_map (fun c => Expectations.json (Builder.pushed c)) calls
   /\ Expectations.jsonLike (Spec._expect x')
      = Expectations.jsonLike (Spec._expect x)
        ++ flat_map (fun c => Expectations.jsonLike (Builder.pushed c)) calls
   /\ Expectations.jsonQuery (Spec._expect x')
      = Expectations.jsonQuery (Spec._expect x)
        ++ flat_map (fun c => Expectations.jsonQuery (Builder.pushed c)) calls)
  /\ (forall before statusCode after,
        calls = before ++ Builder.CallExpectStatus statusCode :: after ->
        forallb (fun c => negb (Builder.is_expectStatus c)) after = true ->
        Expectations.statusCode (Spec._expect x') = statusCode)
  /\ (forall before body after,
        calls = before ++ Builder.CallExpectBody body :: after ->
        forallb (fun c => negb (Builder.is_expectBody c)) after = true ->
        Expectations.body (Spec._expect x') = body).
Proof.
  intros Hchain. split; [ | split].
  - revert x Hchain. induction calls as [ | c calls IH ]; intros x; simpl.
    + intros [= <-]. rewrite !app_nil_r. repeat split.
    + destruct (Builder.call c x) as [y | ] eqn:E; [ | discriminate]. intros Hchain.
      destruct (IH y Hchain) as (H1 & H2 & H3 & H4 & H5 & H6).
      destruct (call_pushes c x y E) as (P1 & P2 & P3 & P4 & P5 & P6).
      rewrite H1, H2, H3, H4, H5, H6, P1, P2, P3, P4, P5, P6.
      rewrite <- !app_assoc. repeat split.
  - intros before statusCode after -> Hafter.
    destruct (chain_split _ _ _ _ _ Hchain) as (y & y' & _ & Hc & Hrest).
    simpl in Hc. injection Hc as <-.
    apply (chain_preserves
             (fun z => Expectations.statusCode (Spec._expect z) = statusCode)
             Builder.is_expectStatus)
      with (calls := after) (y := Builder.expectStatus statusCode y);
      try assumption; [ | reflexivity].
    intros c z z' H Hk HP. call_cases c H; simpl in *; try discriminate; exact HP.
  - intros before body after -> Hafter.
    destruct (chain_split _ _ _ _ _ Hchain) as (y & y' & _ & Hc & Hrest).
    simpl in Hc. injection Hc as <-.
    apply (chain_preserves
             (fun z => Expectations.body (Spec._expect z) = body)
             Builder.is_expectBody)
      with (calls := after) (y := Builder.expectBody body y);
      try assumption; [ | reflexivity].
    intros c z z' H Hk HP. call_cases c H; simpl in *; try discriminate; exact HP.
Qed.

Lemma chain_expectations_accumulate_scalars_overwrite_witness :
  exists x',
    Builder.chain Builder.sample_chain (Builder.new_Spec "s-3" Builder.no_expectations_yet)
    = Some x'
    /\ Expectations.statusCode (Spec._expect x') = JNum 201
    /\ Expectations.headers (Spec._expect x')
       = [JObj [("key", JStr "content-type"); ("value", JStr "application/json")]].
Proof.
  eexists. split; [reflexivity | ].
  destruct (chain_expectations_accumulate_scalars_overwrite Builder.sample_chain
              (Builder.new_Spec "s-3" Builder.no_expectations_yet) _ eq_refl)
    as ((Hh & _) & Hstatus & _).
  split; [ | exact Hh].
  refine (Hstatus
            [Builder.CallVerb Builder.GET (JStr "http://localhost:9393/posts");
             Builder.CallWithQuery "postId" (JNum 1);
             Builder.CallVerb Builder.POST (JStr "http://localhost:9393/posts");
             Builder.CallWithJson (JObj [("title", JStr "foo")]);
             Builder.CallWithQuery "postId" (JNum 2);
             Builder.CallExpectStatus (JNum 200);
             Builder.CallExpectHeader (JStr "content-type") (JStr "application/json")]
            (JNum 201) [] eq_refl eq_refl).
Defined.

(** * An invocation leaves the server as it found it *)

Lemma jsmap_delete_set_commute {V : Type} (k k' : string) (v : V) (m : JsMap.t V) :
  k <> k' -> JsMap.delete k (JsMap.set k' v m) = JsMap.set k' v (JsMap.delete k m).
Proof.
  intros Hne. induction m as [ | [k0 v0] m IH ]; simpl.
  - destruct (String.eqb_spec k k'); [contradiction | reflexivity].
  - destruct (String.eqb_spec k' k0) as [-> | Hne0]; simpl.
    + destruct (String.eqb_spec k k0); [contradiction | ]. simpl.
      now rewrite String.eqb_refl.
    + destruct (String.eqb_spec k k0) as [-> | Hk]; [exact IH | ]. simpl.
      destruct (String.eqb_spec k' k0); [contradiction | ]. now rewrite IH.
Qed.

Lemma removeInteraction_addInteraction_commute p k k' r h s :
  k <> k' ->
  removeInteraction p k (addInteraction k' r h s)
  = addInteraction k' r h (removeInteraction p k s).
Proof.
  intros Hne. unfold removeInteraction, addInteraction.
  destruct (decide (p = port (h r))) as [-> | Hp].
  - destruct (mockMap s !! port (h r)) as [mock | ] eqn:E; simpl.
    + rewrite !lookup_insert_eq. simpl. rewrite !insert_insert_eq.
      now rewrite jsmap_delete_set_commute.
    + now rewrite E.
  - destruct (mockMap s !! port (h r)) as [mock | ] eqn:E;
      destruct (mockMap s !! p) as [mock' | ] eqn:E'; simpl;
      rewrite ?lookup_insert_ne by congruence; rewrite ?E, ?E'; try reflexivity.
    f_equal. apply insert_insert_ne. congruence.
Qed.

Lemma removeInteraction_registered_commute (entries : JsMap.t Ref) p k h s :
  k ∉ JsMap.keys entries ->
  removeInteraction p k (registered entries h s)
  = registered entries h (removeInteraction p k s).
Proof.
  unfold registered. revert s. induction entries as [ | [k0 r0] rest IH ]; intros s Hk; simpl.
  - reflexivity.
  - simpl in Hk. apply not_elem_of_cons in Hk as [Hne Hk].
    rewrite IH by exact Hk. f_equal. now apply removeInteraction_addInteraction_commute.
Qed.

Lemma addInteraction_then_removeInteraction_id k r h s :
  (forall mock, mockMap s !! port (h r) = Some mock ->
                JsMap.get k (interactions mock) = None) ->
  removeInteraction (port (h r)) k (addInteraction k r h s) = s.
Proof.
  intros Habs. destruct (mockMap s !! port (h r)) as [mock | ] eqn:E.
  - apply (addInteraction_then_removeInteraction_restores_aux k r h s mock E (Habs mock eq_refl)).
  - unfold addInteraction. rewrite E. unfold removeInteraction. now rewrite E.
Qed.

Lemma deregistered_registered (entries : JsMap.t Ref) (h : Heap) (s : Server) :
  NoDup (JsMap.keys entries) ->
  (forall k r mock, (k, r) ∈ entries -> mockMap s !! port (h r) = Some mock ->
                    JsMap.get k (interactions mock) = None) ->
  deregistered entries h (registered entries h s) = s.
Proof.
  revert s. induction entries as [ | [k0 r0] rest IH ]; intros s Hnd Hfresh.
  - reflexivity.
  - simpl in Hnd. apply NoDup_cons in Hnd as [Hk0 Hnd].
    change (deregistered rest h
              (removeInteraction (port (h r0)) k0
                 (registered rest h (addInteraction k0 r0 h s))) = s).
    rewrite removeInteraction_registered_commute by exact Hk0.
    rewrite addInteraction_then_removeInteraction_id.
    + apply IH; [exact Hnd | ]. intros k r mock Hin. apply Hfresh.
      apply elem_of_cons. now right.
    + intros mock. apply Hfresh. apply elem_of_cons. now left.
Qed.

Lemma deregistered_same_ports (entries : JsMap.t Ref) (h h' : Heap) (s : Server) :
  (forall k r, (k, r) ∈ entries -> port (h' r) = port (h r)) ->
  deregistered entries h' s = deregistered entries h s.
Proof.
  unfold deregistered. revert s. induction entries as [ | [k0 r0] rest IH ]; intros s Hports.
  - reflexivity.
  - simpl. rewrite (Hports k0 r0) by (apply elem_of_cons; now left).
    apply IH. intros k r Hin. apply (Hports k). apply elem_of_cons. now right.
Qed.

(** X17.  An invocation leaves the mock server exactly as it found it, when
    its interactions have distinct ids that none of their ports' registries
    held before, and the outbound call itself changes neither the server nor
    the port of an interaction: what [toss] registers before the call it
    removes after it, whether validation then succeeds or not. *)
Theorem toss_leaves_the_server_as_found
    (Expect : Type) (validate : Expect -> list (string * JsValue) -> option JsValue)
    (getJson : JsValue -> JsValue)
    (rp : RpCall -> Server * Heap -> Settled * (Server * Heap))
    (st : Spec.St Expect) :
  let x := Spec.this st in
  let entries := Spec.interactions x in
  let seen := registered entries (Spec.heap st) (Spec.server st) in
  let settled := rp (Spec.fetch Expect x).1 (seen, Spec.heap st) in
  let done := Spec.toss Expect validate getJson rp st in
  NoDup (JsMap.keys entries) ->
  (forall k r mock,
     (k, r) ∈ entries ->
     mockMap (Spec.server st) !! port (Spec.heap st r) = Some mock ->
     JsMap.get k (interactions mock) = None) ->
  settled.2.1 = seen ->
  (forall k r, (k, r) ∈ entries -> port (settled.2.2 r) = port (Spec.heap st r)) ->
  Spec.server done.2 = Spec.server st.
Proof.
  intros x entries seen settled done Hnd Hfresh Hserver Hports.
  pose proof (toss_run Expect validate getJson rp st) as Hrun. cbv zeta in Hrun.
  fold x entries seen in Hrun. fold settled in Hrun. fold done in Hrun.
  rewrite Hrun. cbn [snd Spec.server]. rewrite Hserver.
  rewrite (deregistered_same_ports entries (Spec.heap st) _ _ Hports).
  now apply deregistered_registered.
Qed.

Lemma toss_leaves_the_server_as_found_witness :
  NoDup (JsMap.keys (Spec.interactions (Spec.this sample_state)))
  /\ Spec.server
       (Spec.toss unit no_expectations object_or_undefined reaching_mock sample_state).2
     = Spec.server sample_state.
Proof.
  assert (Hnd : NoDup (JsMap.keys (Spec.interactions (Spec.this sample_state)))).
  { apply NoDup_singleton. }
  split; [exact Hnd | ].
  apply (toss_leaves_the_server_as_found unit no_expectations object_or_undefined
           reaching_mock sample_state Hnd).
  - intros k r mock Hin. apply list_elem_of_singleton in Hin. injection Hin as -> ->.
    intros [= <-]. reflexivity.
  - reflexivity.
  - intros k r Hin. apply list_elem_of_singleton in Hin. injection Hin as -> ->.
    reflexivity.
Defined.
